(** * UVM: instruction codec and virtual machine of [uvm_core.py]

    A shallow embedding of the classes [Opcode], [Command] and
    [VirtualMachine].  Python integers are unbounded, so they are [Z];
    [bytes] values are lists of [byte]; Python lists are lists indexed the
    Python way (negative indices count from the end, anything else out of
    range raises [IndexError]).  Exceptions are explicit: pure methods return
    an [outcome], methods of the machine are state transformers that return
    an [outcome] together with the machine as it is when they stop. *)

From Stdlib Require Import ZArith List Lia Bool.
From coqutil Require Import Byte Word.LittleEndianList Z.bitblast.
From stdpp Require Import base list.
Import ListNotations.
Local Open Scope Z_scope.

(** ** Exceptions *)

(** The exceptions the module can raise: [IndexError] (list subscript),
    [ValueError] (raised explicitly, by tuple unpacking and by a negative
    shift count) and [struct.error] (a value that does not fit the format
    given to [struct.pack]). *)
Inductive exn : Type :=
| IndexError
| ValueError
| StructError.

Inductive outcome (A : Type) : Type :=
| Return (a : A)
| Raise (e : exn).
Arguments Return {A} a.
Arguments Raise {A} e.

Definition obind {A B : Type} (m : outcome A) (k : A -> outcome B) : outcome B :=
  match m with
  | Return a => k a
  | Raise e => Raise e
  end.

Declare Scope outcome_scope.
Delimit Scope outcome_scope with outcome.
Notation "x <-! m ;; k" := (obind m (fun x => k))
  (at level 62, m at next level, right associativity) : outcome_scope.
Local Open Scope outcome_scope.

(** ** Opcodes and commands *)

Inductive Opcode : Type :=
| LOAD_CONST
| READ_MEM
| WRITE_MEM
| SHR.

(** [Opcode.X.value] *)
Definition Opcode_value (o : Opcode) : Z :=
  match o with
  | LOAD_CONST => 44
  | READ_MEM => 120
  | WRITE_MEM => 34
  | SHR => 37
  end.

(** The dataclass [Command]; its generated [__eq__] compares the three
    fields, which is Leibniz equality of the record. *)
Record Command : Type := mkCommand {
  opcode : Opcode;
  args : list Z;
  raw_bytes : list byte
}.

(** ** Bytes *)

(** [struct.pack(fmt, value)] for the little-endian unsigned formats
    ['<H'], ['<I'] and ['<Q'] ([size] = 2, 4 and 8 bytes): the value must lie
    in [0, 2^(8*size) - 1], otherwise [struct.error] is raised. *)
Definition struct_pack (size : nat) (value : Z) : outcome (list byte) :=
  if (0 <=? value) && (value <? 2 ^ (8 * Z.of_nat size))
  then Return (le_split size value)
  else Raise StructError.

(** [b.ljust(width, b'\x00')] *)
Definition ljust (b : list byte) (width : nat) : list byte :=
  b ++ repeat Byte.x00 (width - length b).

(** ** [Command.to_binary] *)

Definition to_binary (self : Command) : outcome (list byte) :=
  match opcode self with
  | LOAD_CONST =>
      match args self with
      | [reg; const] =>
          let value := Z.lor (Z.lor (Z.shiftl const 12) (Z.shiftl reg 7))
                             (Opcode_value (opcode self)) in
          packed <-! struct_pack 4 value ;;
          Return (firstn 5 packed)
      | _ => Raise ValueError
      end
  | READ_MEM =>
      match args self with
      | [src_reg; dst_reg] =>
          let value := Z.lor (Z.lor (Z.shiftl dst_reg 12) (Z.shiftl src_reg 7))
                             (Opcode_value (opcode self)) in
          packed <-! struct_pack 2 value ;;
          Return (firstn 3 packed)
      | _ => Raise ValueError
      end
  | WRITE_MEM =>
      match args self with
      | [src_reg; addr_reg] =>
          let value := Z.lor (Z.lor (Z.shiftl addr_reg 12) (Z.shiftl src_reg 7))
                             (Opcode_value (opcode self)) in
          packed <-! struct_pack 2 value ;;
          Return (firstn 3 packed)
      | _ => Raise ValueError
      end
  | SHR =>
      match args self with
      | [reg; mem_addr] =>
          let value := Z.lor (Z.lor (Z.shiftl mem_addr 12) (Z.shiftl reg 7))
                             (Opcode_value (opcode self)) in
          packed <-! struct_pack 8 value ;;
          Return (firstn 6 packed)
      | _ => Raise ValueError
      end
  end.

(** ** [Command.from_binary] *)

Definition from_binary (binary : list byte) : outcome Command :=
  match binary with
  | [] => Raise ValueError
  | first :: _ =>
      let opcode_val := Z.land (byte.unsigned first) 0x7F in
      if opcode_val =? Opcode_value LOAD_CONST then
        let binary := if (length binary <? 5)%nat then ljust binary 5 else binary in
        let value := le_combine (firstn 5 binary) in
        let const := Z.land (Z.shiftr value 12) 0xFFFFFF in
        let reg := Z.land (Z.shiftr value 7) 0x1F in
        Return (mkCommand LOAD_CONST [reg; const] (firstn 5 binary))
      else if opcode_val =? Opcode_value READ_MEM then
        let binary := if (length binary <? 3)%nat then ljust binary 3 else binary in
        let value := le_combine (firstn 3 binary) in
        let dst_reg := Z.land (Z.shiftr value 12) 0x1F in
        let src_reg := Z.land (Z.shiftr value 7) 0x1F in
        Return (mkCommand READ_MEM [src_reg; dst_reg] (firstn 3 binary))
      else if opcode_val =? Opcode_value WRITE_MEM then
        let binary := if (length binary <? 3)%nat then ljust binary 3 else binary in
        let value := le_combine (firstn 3 binary) in
        let addr_reg := Z.land (Z.shiftr value 12) 0x1F in
        let src_reg := Z.land (Z.shiftr value 7) 0x1F in
        Return (mkCommand WRITE_MEM [src_reg; addr_reg] (firstn 3 binary))
      else if opcode_val =? Opcode_value SHR then
        let binary := if (length binary <? 6)%nat then ljust binary 6 else binary in
        let value := le_combine (firstn 6 binary) in
        let mem_addr := Z.land (Z.shiftr value 12) 0x3FFFFFFF in
        let reg := Z.land (Z.shiftr value 7) 0x1F in
        Return (mkCommand SHR [reg; mem_addr] (firstn 6 binary))
      else Raise ValueError
  end.

(** ** Python lists *)

(** The position a subscript [i] denotes in a list of [n] elements:
    [i] itself for [0 <= i < n], [n + i] for [-n <= i < 0], and
    [IndexError] otherwise. *)
Definition py_index (n : nat) (i : Z) : outcome nat :=
  let len := Z.of_nat n in
  if (i <? - len) || (len <=? i) then Raise IndexError
  else Return (Z.to_nat (if i <? 0 then i + len else i)).

(** [l[i]] *)
Definition getitem {A : Type} (l : list A) (i : Z) : outcome A :=
  k <-! py_index (length l) i ;;
  match l !! k with
  | Some x => Return x
  | None => Raise IndexError
  end.

(** [l[i] = x] *)
Definition setitem {A : Type} (l : list A) (i : Z) (x : A) : outcome (list A) :=
  k <-! py_index (length l) i ;;
  Return (<[k := x]> l).

(** [range(start, stop)] *)
Definition py_range (start stop : Z) : list Z :=
  map (fun k => start + Z.of_nat k) (seq 0 (Z.to_nat (stop - start))).

(** ** The machine *)

Record VirtualMachine : Type := mkVM {
  registers : list Z;
  data_memory : list Z;
  program : list Command;
  pc : Z
}.

Definition set_registers (self : VirtualMachine) (v : list Z) : VirtualMachine :=
  mkVM v (data_memory self) (program self) (pc self).
Definition set_data_memory (self : VirtualMachine) (v : list Z) : VirtualMachine :=
  mkVM (registers self) v (program self) (pc self).
Definition set_program (self : VirtualMachine) (v : list Command) : VirtualMachine :=
  mkVM (registers self) (data_memory self) v (pc self).
Definition set_pc (self : VirtualMachine) (v : Z) : VirtualMachine :=
  mkVM (registers self) (data_memory self) (program self) v.

(** [VirtualMachine(data_mem_size)]; [[0] * n] is empty for [n <= 0]. *)
Definition init (data_mem_size : Z) : VirtualMachine :=
  {| registers := repeat 0 32;
     data_memory := repeat 0 (Z.to_nat data_mem_size);
     program := [];
     pc := 0 |}.

Definition default_data_mem_size : Z := 65536.

Definition reset (self : VirtualMachine) : VirtualMachine :=
  {| registers := repeat 0 32;
     data_memory := repeat 0 (length (data_memory self));
     program := program self;
     pc := 0 |}.

(** Methods that mutate the machine and may raise: the machine that comes
    back with a [Raise] is the machine as the exception left it. *)
Definition M (A : Type) : Type := VirtualMachine -> outcome A * VirtualMachine.

Definition ret {A : Type} (a : A) : M A := fun self => (Return a, self).

Definition bind {A B : Type} (m : M A) (k : A -> M B) : M B :=
  fun self =>
    match m self with
    | (Return a, self') => k a self'
    | (Raise e, self') => (Raise e, self')
    end.

Definition lift {A : Type} (o : outcome A) : M A := fun self => (o, self).
Definition gets {A : Type} (f : VirtualMachine -> A) : M A :=
  fun self => (Return (f self), self).
Definition modify (f : VirtualMachine -> VirtualMachine) : M unit :=
  fun self => (Return tt, f self).

Declare Scope vm_scope.
Delimit Scope vm_scope with vm.
Notation "x <- m ;; k" := (bind m (fun x => k))
  (at level 62, m at next level, right associativity) : vm_scope.
Notation "m ;; k" := (bind m (fun _ => k))
  (at level 100, k at level 200, right associativity) : vm_scope.

(** ** [VirtualMachine.execute_command] *)

Definition execute_command (cmd : Command) : M unit :=
  (match opcode cmd with
   | LOAD_CONST =>
       match args cmd with
       | [reg; const] =>
           regs <- gets registers ;;
           regs' <- lift (setitem regs reg const) ;;
           modify (fun self => set_registers self regs')
       | _ => lift (Raise ValueError)
       end
   | READ_MEM =>
       match args cmd with
       | [src_reg; dst_reg] =>
           regs <- gets registers ;;
           mem_addr <- lift (getitem regs src_reg) ;;
           mem <- gets data_memory ;;
           v <- lift (getitem mem mem_addr) ;;
           regs' <- lift (setitem regs dst_reg v) ;;
           modify (fun self => set_registers self regs')
       | _ => lift (Raise ValueError)
       end
   | WRITE_MEM =>
       match args cmd with
       | [src_reg; addr_reg] =>
           regs <- gets registers ;;
           mem_addr <- lift (getitem regs addr_reg) ;;
           v <- lift (getitem regs src_reg) ;;
           mem <- gets data_memory ;;
           mem' <- lift (setitem mem mem_addr v) ;;
           modify (fun self => set_data_memory self mem')
       | _ => lift (Raise ValueError)
       end
   | SHR =>
       match args cmd with
       | [reg; mem_addr] =>
           mem <- gets data_memory ;;
           shift_amount <- lift (getitem mem mem_addr) ;;
           regs <- gets registers ;;
           r <- lift (getitem regs reg) ;;
           (* [>>] raises ValueError on a negative shift count *)
           shifted <- lift (if shift_amount <? 0 then Raise ValueError
                            else Return (Z.shiftr r shift_amount)) ;;
           regs' <- lift (setitem regs reg shifted) ;;
           modify (fun self => set_registers self regs')
       | _ => lift (Raise ValueError)
       end
   end)%vm.

(** ** [VirtualMachine.execute_step] *)

Definition execute_step : M bool :=
  (cur <- gets pc ;;
   prog <- gets program ;;
   if Z.of_nat (length prog) <=? cur then ret false
   else
     cmd <- lift (getitem prog cur) ;;
     execute_command cmd ;;
     cur' <- gets pc ;;
     modify (fun self => set_pc self (cur' + 1)) ;;
     ret true)%vm.

(** ** [VirtualMachine.run] *)

(** The [while] loop of [run]: the loop test calls [execute_step] first and
    compares [steps] with [max_steps] only when the step returned [True].
    [None] means the fuel ran out before the loop ended. *)
Fixpoint run_loop (fuel : nat) (max_steps steps : Z) (self : VirtualMachine)
  : option (outcome unit * VirtualMachine) :=
  match fuel with
  | O => None
  | S fuel' =>
      match execute_step self with
      | (Raise e, self') => Some (Raise e, self')
      | (Return stepped, self') =>
          if stepped && (steps <? max_steps)
          then run_loop fuel' max_steps (steps + 1) self'
          else Some (Return tt, self')
      end
  end.

Definition run (max_steps : Z) (self : VirtualMachine)
  : option (outcome unit * VirtualMachine) :=
  run_loop (S (Z.to_nat max_steps)) max_steps 0 self.

Definition default_max_steps : Z := 10000.

(** ** [VirtualMachine.load_program] *)

(** The length the loader gives the record that starts with a byte whose
    low seven bits are [opcode_val]. *)
Definition cmd_len_of (opcode_val : Z) : outcome nat :=
  if opcode_val =? Opcode_value LOAD_CONST then Return 5%nat
  else if (opcode_val =? Opcode_value READ_MEM) || (opcode_val =? Opcode_value WRITE_MEM)
  then Return 3%nat
  else if opcode_val =? Opcode_value SHR then Return 6%nat
  else Raise ValueError.

(** The [while i < len(binary_data)] loop; every decoded command is appended
    to [self.program] at once. *)
Fixpoint load_loop (fuel : nat) (binary_data : list byte) (i : nat)
  (self : VirtualMachine) : option (outcome unit * VirtualMachine) :=
  if (length binary_data <=? i)%nat then Some (Return tt, self)
  else
    match fuel with
    | O => None
    | S fuel' =>
        match binary_data !! i with
        | None => Some (Raise IndexError, self)
        | Some first_byte =>
            let opcode_val := Z.land (byte.unsigned first_byte) 0x7F in
            match cmd_len_of opcode_val with
            | Raise e => Some (Raise e, self)
            | Return cmd_len =>
                let cmd_bytes := firstn cmd_len (skipn i binary_data) in
                let cmd_bytes :=
                  if (length cmd_bytes <? cmd_len)%nat
                  then ljust cmd_bytes cmd_len else cmd_bytes in
                match from_binary cmd_bytes with
                | Raise e => Some (Raise e, self)
                | Return cmd =>
                    load_loop fuel' binary_data (i + cmd_len)
                      (set_program self (program self ++ [cmd]))
                end
            end
        end
    end.

Definition load_program (binary_data : list byte) (self : VirtualMachine)
  : option (outcome unit * VirtualMachine) :=
  load_loop (length binary_data) binary_data 0 (set_program self []).

(** ** [VirtualMachine.dump_memory] *)

(** The [for addr in range(...)] loop, appending to [dump]. *)
Fixpoint dump_loop (mem : list Z) (addrs : list Z) (dump : list (Z * Z))
  : outcome (list (Z * Z)) :=
  match addrs with
  | [] => Return dump
  | addr :: rest =>
      v <-! getitem mem addr ;;
      dump_loop mem rest (dump ++ [(addr, v)])
  end.

Definition dump_memory (self : VirtualMachine) (start_addr end_addr : Z)
  : outcome (list (Z * Z)) :=
  dump_loop (data_memory self)
    (py_range start_addr (Z.min (end_addr + 1) (Z.of_nat (length (data_memory self)))))
    [].

(** * Vocabulary of the properties *)

(** ** Declared layout of the opcodes *)

(** The record width the decoder and the loader use for each opcode. *)
Definition declared_width (o : Opcode) : nat :=
  match o with
  | LOAD_CONST => 5
  | READ_MEM => 3
  | WRITE_MEM => 3
  | SHR => 6
  end.

(** The size of the [struct] format the encoder packs each opcode with:
    ['<I'], ['<H'], ['<H'] and ['<Q']. *)
Definition pack_size (o : Opcode) : nat :=
  match o with
  | LOAD_CONST => 4
  | READ_MEM => 2
  | WRITE_MEM => 2
  | SHR => 8
  end.

(** The mask of the "A" field in the decoder. *)
Definition A_mask (o : Opcode) : Z :=
  match o with
  | LOAD_CONST => 0xFFFFFF
  | READ_MEM => 0x1F
  | WRITE_MEM => 0x1F
  | SHR => 0x3FFFFFFF
  end.

Definition A_bits (o : Opcode) : Z :=
  match o with
  | LOAD_CONST => 24
  | READ_MEM => 5
  | WRITE_MEM => 5
  | SHR => 30
  end.

Definition is_reg (r : Z) : bool := (0 <=? r) && (r <=? 31).

(** Operand arity and ranges of an instruction: register indices in [0,31],
    the constant of LOAD_CONST in [0, 2^24-1], the address of SHR in
    [0, 2^30-1]. *)
Definition operands_in_range (cmd : Command) : bool :=
  match opcode cmd, args cmd with
  | LOAD_CONST, [reg; const] =>
      is_reg reg && (0 <=? const) && (const <=? 2 ^ 24 - 1)
  | READ_MEM, [src_reg; dst_reg] => is_reg src_reg && is_reg dst_reg
  | WRITE_MEM, [src_reg; addr_reg] => is_reg src_reg && is_reg addr_reg
  | SHR, [reg; mem_addr] =>
      is_reg reg && (0 <=? mem_addr) && (mem_addr <=? 2 ^ 30 - 1)
  | _, _ => false
  end.

Definition packed_value (o : Opcode) (a b : Z) : Z :=
  Z.lor (Z.lor (Z.shiftl a 12) (Z.shiftl b 7)) (Opcode_value o).

(** The number of bytes the encoder returns, whenever it returns. *)
Definition encoded_width (o : Opcode) : nat := Nat.min (declared_width o) (pack_size o).

(** What the decoder returns for a record whose first byte carries the code
    of [o]. *)
Definition decoded (o : Opcode) (binary : list byte) : Command :=
  let value := le_combine (firstn (declared_width o) binary) in
  mkCommand o
    [Z.land (Z.shiftr value 7) 0x1F; Z.land (Z.shiftr value 12) (A_mask o)]
    (firstn (declared_width o)
       (if (length binary <? declared_width o)%nat
        then ljust binary (declared_width o) else binary)).

(** ** Subscripts *)

(** A subscript is accepted exactly when [-len <= i < len]. *)
Definition subscript_ok (n : nat) (i : Z) : bool :=
  (- Z.of_nat n <=? i) && (i <? Z.of_nat n).

(** The declared bounds of an array of [n] slots: [0 <= i < n]. *)
Definition in_declared_bounds (n : nat) (i : Z) : bool :=
  (0 <=? i) && (i <? Z.of_nat n).

(** The subscripts [execute_command] evaluates for [cmd], each with the
    length of the list it indexes: [self.registers[...]] and
    [self.data_memory[...]] as they occur in the four branches.  The memory
    address of READ_MEM and WRITE_MEM is the content of a register, so it is
    listed when that register can be read. *)
Definition references (self : VirtualMachine) (cmd : Command) : list (nat * Z) :=
  let nregs := length (registers self) in
  let nmem := length (data_memory self) in
  match opcode cmd, args cmd with
  | LOAD_CONST, [reg; _] => [(nregs, reg)]
  | READ_MEM, [src_reg; dst_reg] =>
      (nregs, src_reg) :: (nregs, dst_reg) ::
      match getitem (registers self) src_reg with
      | Return mem_addr => [(nmem, mem_addr)]
      | Raise _ => []
      end
  | WRITE_MEM, [src_reg; addr_reg] =>
      (nregs, addr_reg) :: (nregs, src_reg) ::
      match getitem (registers self) addr_reg with
      | Return mem_addr => [(nmem, mem_addr)]
      | Raise _ => []
      end
  | SHR, [reg; mem_addr] => [(nmem, mem_addr); (nregs, reg)]
  | _, _ => []
  end.

(** Some subscript of [cmd] is rejected by the check [ok]. *)
Definition some_reference_fails (ok : nat -> Z -> bool)
  (self : VirtualMachine) (cmd : Command) : bool :=
  existsb (fun r => negb (ok (fst r) (snd r))) (references self cmd).

(** ** Records of a byte stream *)

(** The bytes the loader hands to the decoder for the record at offset [i]:
    the slice [binary_data[i:i+cmd_len]], padded with zeros at the end of the
    stream. *)
Definition record (binary_data : list byte) (i cmd_len : nat) : list byte :=
  let cmd_bytes := firstn cmd_len (skipn i binary_data) in
  if (length cmd_bytes <? cmd_len)%nat then ljust cmd_bytes cmd_len else cmd_bytes.

Definition opcode_val_of (b : byte) : Z := Z.land (byte.unsigned b) 0x7F.

Definition unrecognized (c : Z) : Prop := forall o, c <> Opcode_value o.

(** [scan data i k]: scanning records from the boundary [i], the loader
    reaches the boundary [k]. *)
Inductive scan (data : list byte) : nat -> nat -> Prop :=
| scan_here i : scan data i i
| scan_next i b o k :
    data !! i = Some b ->
    opcode_val_of b = Opcode_value o ->
    scan data (i + declared_width o) k ->
    scan data i k.

(** The stream has an unrecognized opcode code at the record boundary [k]. *)
Definition bad_record_at (data : list byte) (k : nat) : Prop :=
  scan data 0 k /\ exists b, data !! k = Some b /\ unrecognized (opcode_val_of b).

(** ** Machine invariants *)

Definition values_nonneg (self : VirtualMachine) : Prop :=
  Forall (fun v => 0 <= v) (registers self) /\
  Forall (fun v => 0 <= v) (data_memory self).

Definition program_in_range (self : VirtualMachine) : Prop :=
  Forall (fun cmd => operands_in_range cmd = true) (program self).

(** [steps self self']: [self'] is reached from [self] by a sequence of
    calls of [execute_step] that all completed. *)
Inductive steps : VirtualMachine -> VirtualMachine -> Prop :=
| steps_done self : steps self self
| steps_more self stepped self' self'' :
    execute_step self = (Return stepped, self') ->
    steps self' self'' ->
    steps self self''.

(** ** Sample inputs *)

(** A LOAD_CONST record followed by a byte whose low seven bits are no
    opcode code. *)
Definition bad_stream : list byte :=
  [Byte.x2c; Byte.x50; Byte.x00; Byte.x00; Byte.x00; Byte.x00].

(** Two LOAD_CONST records: [LOAD_CONST 1 5] and [LOAD_CONST 2 7]. *)
Definition two_loads : list byte :=
  [Byte.xac; Byte.x50; Byte.x00; Byte.x00; Byte.x00;
   Byte.x2c; Byte.x71; Byte.x00; Byte.x00; Byte.x00].

(** The READ_MEM record with [src_reg = 0] and [dst_reg = 1]. *)
Definition read_0_1 : list byte := [Byte.x78; Byte.x10; Byte.x00].

(** The first value of the "A" operand that no longer fits the [struct]
    format of the encoder: the packed value has [A] from bit 12 on. *)
Definition A_capacity (o : Opcode) : Z := 2 ^ (8 * Z.of_nat (pack_size o) - 12).

(** * Properties *)

(** ** The three-field layout

    [value = (A << 12) | (B << 7) | C] with [C] a 7-bit code and [B] a 5-bit
    register field. *)

Section Fields.

Lemma lor_shiftl_low hi lo k :
  0 <= k -> 0 <= lo < 2 ^ k ->
  Z.land (Z.lor (Z.shiftl hi k) lo) (Z.ones k) = lo.
Proof.
  intros Hk Hlo.
  rewrite Z.land_lor_distr_l, !Z.land_ones by lia.
  rewrite Z.shiftl_mul_pow2, Z.mod_mul by lia.
  rewrite Z.mod_small by lia. reflexivity.
Qed.

Lemma lor_shiftl_high hi lo k :
  0 <= k -> 0 <= lo < 2 ^ k ->
  Z.shiftr (Z.lor (Z.shiftl hi k) lo) k = hi.
Proof.
  intros Hk Hlo.
  rewrite Z.shiftr_lor, Z.shiftr_shiftl_l, Z.sub_diag, Z.shiftl_0_r by lia.
  rewrite (Z.shiftr_div_pow2 lo), Z.div_small by lia.
  apply Z.lor_0_r.
Qed.

Lemma packed_regroup a b c :
  Z.lor (Z.lor (Z.shiftl a 12) (Z.shiftl b 7)) c
  = Z.lor (Z.shiftl (Z.lor (Z.shiftl a 5) b) 7) c.
Proof.
  rewrite Z.shiftl_lor, Z.shiftl_shiftl by lia. reflexivity.
Qed.

Lemma packed_code a b c :
  0 <= c < 128 ->
  Z.land (Z.lor (Z.lor (Z.shiftl a 12) (Z.shiftl b 7)) c) 0x7F = c.
Proof.
  intros Hc. rewrite packed_regroup.
  apply (lor_shiftl_low _ c 7); lia.
Qed.

Lemma packed_B a b c :
  0 <= b < 32 -> 0 <= c < 128 ->
  Z.land (Z.shiftr (Z.lor (Z.lor (Z.shiftl a 12) (Z.shiftl b 7)) c) 7) 0x1F = b.
Proof.
  intros Hb Hc. rewrite packed_regroup, lor_shiftl_high by lia.
  apply (lor_shiftl_low _ b 5); lia.
Qed.

Lemma packed_A a b c :
  0 <= b < 32 -> 0 <= c < 128 ->
  Z.shiftr (Z.lor (Z.lor (Z.shiftl a 12) (Z.shiftl b 7)) c) 12 = a.
Proof.
  intros Hb Hc. rewrite packed_regroup.
  change 12 with (7 + 5).
  rewrite <- Z.shiftr_shiftr, lor_shiftl_high by lia.
  apply lor_shiftl_high; lia.
Qed.

Lemma packed_bounds a b c w :
  0 <= w -> 0 <= a < 2 ^ w -> 0 <= b < 32 -> 0 <= c < 128 ->
  0 <= Z.lor (Z.lor (Z.shiftl a 12) (Z.shiftl b 7)) c < 2 ^ (w + 12).
Proof.
  intros Hw Ha Hb Hc.
  set (v := Z.lor _ _).
  assert (Hv : 0 <= v).
  { subst v. rewrite !Z.lor_nonneg, !Z.shiftl_nonneg. lia. }
  split; [exact Hv|].
  assert (HA : Z.shiftr v 12 = a) by (apply packed_A; lia).
  rewrite Z.shiftr_div_pow2 in HA by lia.
  rewrite Z.pow_add_r by lia.
  pose proof (Z.div_mod v (2 ^ 12) ltac:(lia)) as Hdm.
  pose proof (Z.mod_pos_bound v (2 ^ 12) ltac:(lia)) as Hm.
  nia.
Qed.

End Fields.

(** ** Opcode tables *)

Lemma Opcode_value_range o : 0 <= Opcode_value o < 128.
Proof. destruct o; simpl; lia. Qed.

Lemma A_mask_ones o : A_mask o = Z.ones (A_bits o).
Proof. destruct o; reflexivity. Qed.

Lemma A_bits_nonneg o : 0 <= A_bits o.
Proof. destruct o; simpl; lia. Qed.

Lemma operands_in_range_inv cmd :
  operands_in_range cmd = true ->
  exists b a, args cmd = [b; a] /\ 0 <= b < 32 /\ 0 <= a < 2 ^ A_bits (opcode cmd).
Proof.
  unfold operands_in_range, is_reg.
  destruct (opcode cmd); destruct (args cmd) as [|b [|a [|]]]; try discriminate;
    intros H; exists b, a; (split; [reflexivity|]); cbn [A_bits]; lia.
Qed.

(** *** The encoder, opcode by opcode *)

Lemma to_binary_args o b a raw :
  to_binary (mkCommand o [b; a] raw) =
  (packed <-! struct_pack (pack_size o) (packed_value o a b) ;;
   Return (firstn (declared_width o) packed)).
Proof. destruct o; reflexivity. Qed.

Lemma struct_pack_Return size value bs :
  struct_pack size value = Return bs ->
  0 <= value < 2 ^ (8 * Z.of_nat size) /\ bs = le_split size value.
Proof.
  unfold struct_pack.
  destruct (0 <=? value) eqn:H0; destruct (value <? _) eqn:H1; simpl; try discriminate.
  intros [= <-]. split; [lia | reflexivity].
Qed.

Lemma struct_pack_fits size value :
  0 <= value < 2 ^ (8 * Z.of_nat size) ->
  struct_pack size value = Return (le_split size value).
Proof.
  intros H. unfold struct_pack.
  destruct (0 <=? value) eqn:H0; destruct (value <? _) eqn:H1; simpl; try reflexivity; lia.
Qed.

Lemma struct_pack_overflow size value :
  2 ^ (8 * Z.of_nat size) <= value ->
  struct_pack size value = Raise StructError.
Proof.
  intros H. unfold struct_pack.
  destruct (value <? _) eqn:H1; [lia|]. rewrite andb_false_r. reflexivity.
Qed.

Lemma packed_value_lower o a b :
  0 <= a -> 0 <= b < 32 -> a * 2 ^ 12 <= packed_value o a b.
Proof.
  intros Ha Hb. unfold packed_value.
  pose proof (Opcode_value_range o) as Hc.
  set (v := Z.lor _ _).
  assert (HA : Z.shiftr v 12 = a) by (apply packed_A; lia).
  rewrite Z.shiftr_div_pow2 in HA by lia.
  pose proof (Z.div_mod v (2 ^ 12) ltac:(lia)) as Hdm.
  pose proof (Z.mod_pos_bound v (2 ^ 12) ltac:(lia)) as Hm.
  nia.
Qed.

(** In range, the encoder of LOAD_CONST returns the four bytes of ['<I'] when
    the constant is below 2^20 and raises [struct.error] otherwise. *)
Lemma to_binary_LOAD_CONST reg const raw :
  0 <= reg < 32 -> 0 <= const < 2 ^ 24 ->
  to_binary (mkCommand LOAD_CONST [reg; const] raw) =
  if const <? 2 ^ 20 then Return (le_split 4 (packed_value LOAD_CONST const reg))
  else Raise StructError.
Proof.
  intros Hr Hc. rewrite to_binary_args. simpl pack_size. simpl declared_width.
  destruct (const <? 2 ^ 20) eqn:E.
  - rewrite struct_pack_fits.
    + cbv beta iota delta [obind]. rewrite firstn_all2 by (rewrite length_le_split; lia). reflexivity.
    + pose proof (packed_bounds const reg (Opcode_value LOAD_CONST) 20) as B.
      unfold packed_value. simpl in *. lia.
  - rewrite struct_pack_overflow; [reflexivity|].
    pose proof (packed_value_lower LOAD_CONST const reg) as L. simpl in *. lia.
Qed.

(** In range, the encoders of READ_MEM and WRITE_MEM return the two bytes of
    ['<H'] when the second operand is below 16 and raise otherwise. *)
Lemma to_binary_MEM o src_reg other raw :
  o = READ_MEM \/ o = WRITE_MEM ->
  0 <= src_reg < 32 -> 0 <= other < 32 ->
  to_binary (mkCommand o [src_reg; other] raw) =
  if other <? 16 then Return (le_split 2 (packed_value o other src_reg))
  else Raise StructError.
Proof.
  intros Ho Hr Hc. rewrite to_binary_args.
  assert (pack_size o = 2%nat /\ declared_width o = 3%nat) as [-> ->]
    by (destruct Ho; subst; auto).
  destruct (other <? 16) eqn:E.
  - rewrite struct_pack_fits.
    + cbv beta iota delta [obind]. rewrite firstn_all2 by (rewrite length_le_split; lia). reflexivity.
    + pose proof (packed_bounds other src_reg (Opcode_value o) 4) as B.
      pose proof (Opcode_value_range o).
      unfold packed_value. simpl in *. lia.
  - rewrite struct_pack_overflow; [reflexivity|].
    pose proof (packed_value_lower o other src_reg) as L. simpl in *. lia.
Qed.

(** In range, the encoder of SHR always returns six bytes. *)
Lemma to_binary_SHR reg mem_addr raw :
  0 <= reg < 32 -> 0 <= mem_addr < 2 ^ 30 ->
  to_binary (mkCommand SHR [reg; mem_addr] raw) =
  Return (firstn 6 (le_split 8 (packed_value SHR mem_addr reg))).
Proof.
  intros Hr Hc. rewrite to_binary_args. simpl pack_size. simpl declared_width.
  rewrite struct_pack_fits; [reflexivity|].
  pose proof (packed_bounds mem_addr reg (Opcode_value SHR) 30) as B.
  unfold packed_value. simpl in *. lia.
Qed.

Lemma to_binary_length cmd bs :
  to_binary cmd = Return bs -> length bs = encoded_width (opcode cmd).
Proof.
  destruct cmd as [o l raw]. simpl.
  destruct l as [|b [|a [|]]]; try (destruct o; discriminate).
  rewrite to_binary_args.
  destruct (struct_pack _ _) as [packed|] eqn:E; [|discriminate].
  apply struct_pack_Return in E as [_ ->]. simpl.
  intros [= <-]. rewrite length_firstn, length_le_split. reflexivity.
Qed.

(** *** The decoder, opcode by opcode *)

Lemma le_combine_padded (w : nat) (bs : list byte) :
  le_combine (firstn w (if (length bs <? w)%nat then ljust bs w else bs))
  = le_combine (firstn w bs).
Proof.
  destruct (length bs <? w)%nat eqn:E; [|reflexivity].
  apply Nat.ltb_lt in E. unfold ljust.
  rewrite firstn_all2 by (rewrite length_app, repeat_length; lia).
  rewrite le_combine_app_0, (firstn_all2 bs) by lia. reflexivity.
Qed.

Lemma from_binary_known o first rest :
  Z.land (byte.unsigned first) 0x7F = Opcode_value o ->
  from_binary (first :: rest) = Return (decoded o (first :: rest)).
Proof.
  intros H. unfold from_binary, decoded. rewrite H.
  destruct o; cbn [Opcode_value Z.eqb Pos.eqb declared_width A_mask];
    rewrite le_combine_padded; reflexivity.
Qed.

Lemma from_binary_unknown first rest :
  (forall o, Z.land (byte.unsigned first) 0x7F <> Opcode_value o) ->
  from_binary (first :: rest) = Raise ValueError.
Proof.
  intros H. unfold from_binary.
  pose proof (H LOAD_CONST) as H1. pose proof (H READ_MEM) as H2.
  pose proof (H WRITE_MEM) as H3. pose proof (H SHR) as H4.
  apply Z.eqb_neq in H1, H2, H3, H4. rewrite H1, H2, H3, H4. reflexivity.
Qed.

Lemma from_binary_Return binary cmd :
  from_binary binary = Return cmd ->
  exists first rest,
    binary = first :: rest /\
    Z.land (byte.unsigned first) 0x7F = Opcode_value (opcode cmd) /\
    cmd = decoded (opcode cmd) binary.
Proof.
  destruct binary as [|first rest]; [discriminate|].
  intros H. exists first, rest. split; [reflexivity|].
  set (c := Z.land (byte.unsigned first) 0x7F) in *.
  destruct (Z.eq_dec c (Opcode_value LOAD_CONST)) as [E|N1];
    [rewrite (from_binary_known LOAD_CONST) in H by exact E; injection H as <-; auto|].
  destruct (Z.eq_dec c (Opcode_value READ_MEM)) as [E|N2];
    [rewrite (from_binary_known READ_MEM) in H by exact E; injection H as <-; auto|].
  destruct (Z.eq_dec c (Opcode_value WRITE_MEM)) as [E|N3];
    [rewrite (from_binary_known WRITE_MEM) in H by exact E; injection H as <-; auto|].
  destruct (Z.eq_dec c (Opcode_value SHR)) as [E|N4];
    [rewrite (from_binary_known SHR) in H by exact E; injection H as <-; auto|].
  rewrite from_binary_unknown in H; [discriminate|].
  intros []; assumption.
Qed.

Lemma land_mask_range x k : 0 <= k -> 0 <= Z.land x (Z.ones k) < 2 ^ k.
Proof.
  intros Hk. rewrite Z.land_ones by lia. apply Z.mod_pos_bound. lia.
Qed.

Lemma decoded_in_range o binary : operands_in_range (decoded o binary) = true.
Proof.
  unfold operands_in_range, decoded, is_reg. cbn [args opcode].
  rewrite A_mask_ones.
  pose proof (A_bits_nonneg o) as Hk.
  match goal with |- context [Z.land ?x (Z.ones (A_bits o))] =>
    pose proof (land_mask_range x (A_bits o) Hk) as HA end.
  match goal with |- context [Z.land ?x 0x1F] =>
    pose proof (land_mask_range x 5 ltac:(lia)) as HB end.
  change (Z.ones 5) with 0x1F in HB. change (2 ^ 5) with 32 in HB.
  destruct o; cbn [A_bits] in *; repeat (apply andb_true_intro; split); lia.
Qed.

(** *** Decoding what the encoder returned *)

Lemma le_split_S n w :
  le_split (S n) w = byte.of_Z w :: le_split n (Z.shiftr w 8).
Proof. reflexivity. Qed.

Lemma byte_low7 z : Z.land (byte.unsigned (byte.of_Z z)) 0x7F = Z.land z 0x7F.
Proof.
  rewrite byte.unsigned_of_Z. unfold byte.wrap.
  rewrite <- Z.land_ones, <- Z.land_assoc by lia. reflexivity.
Qed.

(** Wherever the encoder returns, the decoder recovers the opcode and the
    operands; the decoded command carries the padded record in [raw_bytes]. *)
Lemma from_binary_to_binary cmd bs :
  operands_in_range cmd = true ->
  to_binary cmd = Return bs ->
  exists raw, from_binary bs = Return (mkCommand (opcode cmd) (args cmd) raw).
Proof.
  intros Hr He.
  destruct (operands_in_range_inv cmd Hr) as (b & a & Hargs & Hb & Ha).
  destruct cmd as [o l raw]. cbn [args opcode] in *. subst l.
  rewrite to_binary_args in He.
  destruct (struct_pack _ _) as [packed|] eqn:E; [|discriminate].
  apply struct_pack_Return in E as [Hv ->]. cbv beta iota delta [obind] in He.
  injection He as <-.
  pose proof (Opcode_value_range o) as Hc.
  pose proof (A_bits_nonneg o) as Hk.
  pose proof (packed_bounds a b (Opcode_value o) (A_bits o) Hk Ha Hb Hc) as Hpb.
  fold (packed_value o a b) in Hpb.
  set (v := packed_value o a b) in *.
  assert (Hcons : exists rest,
             firstn (declared_width o) (le_split (pack_size o) v) = byte.of_Z v :: rest).
  { destruct o; cbn [declared_width pack_size]; rewrite le_split_S; cbn [firstn]; eauto. }
  destruct Hcons as [rest Hcons].
  assert (Hval : le_combine (firstn (declared_width o)
                    (firstn (declared_width o) (le_split (pack_size o) v))) = v).
  { rewrite !le_combine_firstn, le_combine_split.
    assert (v < 2 ^ (8 * Z.of_nat (declared_width o))).
    { eapply Z.lt_le_trans; [apply Hpb|].
      apply Z.pow_le_mono_r; [lia|]. destruct o; simpl; lia. }
    rewrite (Z.mul_comm _ 8).
    rewrite (Z.mod_small v (2 ^ (8 * Z.of_nat (pack_size o)))) by lia.
    rewrite !(Z.mod_small v (2 ^ (8 * Z.of_nat (declared_width o)))) by lia.
    reflexivity. }
  rewrite Hcons. erewrite from_binary_known.
  2:{ rewrite byte_low7. apply packed_code. exact Hc. }
  rewrite <- Hcons. unfold decoded. rewrite Hval.
  eexists. f_equal. f_equal.
  subst v. unfold packed_value.
  rewrite packed_B, packed_A by lia.
  rewrite A_mask_ones, Z.land_ones, Z.mod_small by lia. reflexivity.
Qed.

(** ** Python subscripts *)

Section Subscripts.
Context {A : Type}.
Implicit Types (l : list A) (i : Z) (k : nat) (x : A).

Lemma py_index_ok n i :
  subscript_ok n i = true ->
  exists k, py_index n i = Return k /\ (k < n)%nat /\
            Z.of_nat k = if i <? 0 then i + Z.of_nat n else i.
Proof.
  unfold subscript_ok, py_index. intros H.
  apply andb_prop in H as [H1 H2].
  apply Z.leb_le in H1. apply Z.ltb_lt in H2.
  destruct (i <? - Z.of_nat n) eqn:E1; [lia|].
  destruct (Z.of_nat n <=? i) eqn:E2; [lia|]. cbn [orb].
  eexists. split; [reflexivity|].
  destruct (i <? 0) eqn:E3; lia.
Qed.

Lemma py_index_bad n i :
  subscript_ok n i = false -> py_index n i = Raise IndexError.
Proof.
  unfold subscript_ok, py_index. intros H.
  destruct (i <? - Z.of_nat n) eqn:E1; [reflexivity|].
  destruct (Z.of_nat n <=? i) eqn:E2; [reflexivity|].
  apply andb_false_iff in H as [H|H]; lia.
Qed.

Lemma py_index_nonneg n i :
  0 <= i < Z.of_nat n -> py_index n i = Return (Z.to_nat i).
Proof.
  intros H. unfold py_index.
  destruct (i <? - Z.of_nat n) eqn:E1; [lia|].
  destruct (Z.of_nat n <=? i) eqn:E2; [lia|].
  destruct (i <? 0) eqn:E3; [lia|]. reflexivity.
Qed.

Lemma getitem_ok l i :
  subscript_ok (length l) i = true ->
  exists k x, py_index (length l) i = Return k /\ l !! k = Some x /\
              getitem l i = Return x.
Proof.
  intros H. destruct (py_index_ok _ _ H) as (k & Hk & Hlt & _).
  destruct (lookup_lt_is_Some_2 l k Hlt) as [x Hx].
  exists k, x. unfold getitem. rewrite Hk. cbn [obind]. rewrite Hx. auto.
Qed.

Lemma getitem_bad l i :
  subscript_ok (length l) i = false -> getitem l i = Raise IndexError.
Proof. intros H. unfold getitem. rewrite py_index_bad by exact H. reflexivity. Qed.

Lemma setitem_bad l i x :
  subscript_ok (length l) i = false -> setitem l i x = Raise IndexError.
Proof. intros H. unfold setitem. rewrite py_index_bad by exact H. reflexivity. Qed.

Lemma getitem_Raise l i e : getitem l i = Raise e -> e = IndexError.
Proof.
  destruct (subscript_ok (length l) i) eqn:E.
  - destruct (getitem_ok l i E) as (k & x & _ & _ & ->). discriminate.
  - rewrite getitem_bad by exact E. congruence.
Qed.

Lemma setitem_Raise l i x e : setitem l i x = Raise e -> e = IndexError.
Proof.
  destruct (subscript_ok (length l) i) eqn:E.
  - destruct (py_index_ok _ _ E) as (k & Hk & _). unfold setitem. rewrite Hk. discriminate.
  - rewrite setitem_bad by exact E. congruence.
Qed.

Lemma getitem_Return l i x :
  getitem l i = Return x ->
  exists k, py_index (length l) i = Return k /\ l !! k = Some x.
Proof.
  unfold getitem. destruct (py_index (length l) i) as [k|] eqn:E; [|discriminate].
  cbn [obind]. destruct (l !! k) eqn:E'; [|discriminate].
  intros [= <-]. eauto.
Qed.

Lemma setitem_Return l i x l' :
  setitem l i x = Return l' ->
  exists k, py_index (length l) i = Return k /\ l' = <[k := x]> l.
Proof.
  unfold setitem. destruct (py_index (length l) i) as [k|] eqn:E; [|discriminate].
  cbn [obind]. intros [= <-]. eauto.
Qed.

Lemma getitem_nonneg l i x :
  0 <= i -> l !! Z.to_nat i = Some x -> getitem l i = Return x.
Proof.
  intros Hi Hx. unfold getitem.
  rewrite py_index_nonneg.
  - cbn [obind]. rewrite Hx. reflexivity.
  - apply lookup_lt_Some in Hx. lia.
Qed.

Lemma setitem_nonneg l i x :
  0 <= i < Z.of_nat (length l) -> setitem l i x = Return (<[Z.to_nat i := x]> l).
Proof. intros H. unfold setitem. rewrite py_index_nonneg by exact H. reflexivity. Qed.

Lemma getitem_Forall (P : A -> Prop) l i x :
  Forall P l -> getitem l i = Return x -> P x.
Proof.
  intros HP H. apply getitem_Return in H as (k & _ & Hk).
  eapply Forall_lookup_1; eassumption.
Qed.

Lemma setitem_Forall (P : A -> Prop) l i x l' :
  Forall P l -> P x -> setitem l i x = Return l' -> Forall P l'.
Proof.
  intros HP Hx H. apply setitem_Return in H as (k & _ & ->).
  apply Forall_insert; assumption.
Qed.
End Subscripts.

(** ** One command *)

Ltac run_vm :=
  cbv beta iota delta [bind gets lift modify ret] in *; cbn [fst snd] in *.

(** A command that raises leaves the machine as it found it: each branch
    of [execute_command] assigns once, as its last action. *)
Lemma execute_command_Raise cmd self e self' :
  execute_command cmd self = (Raise e, self') -> self' = self.
Proof.
  unfold execute_command.
  destruct (opcode cmd); destruct (args cmd) as [|x [|y [|]]]; run_vm;
    try (intros [= _ <-]; reflexivity);
    repeat match goal with
           | |- context [match ?o with Return _ => _ | Raise _ => _ end] =>
               destruct o eqn:?
           | |- context [if ?c then _ else _] => destruct c eqn:?
           end;
    intros [= ]; congruence.
Qed.

(** A command never touches the program or the program counter, and keeps
    the sizes of both arrays. *)
Lemma execute_command_frame cmd self o self' :
  execute_command cmd self = (o, self') ->
  program self' = program self /\ pc self' = pc self /\
  length (registers self') = length (registers self) /\
  length (data_memory self') = length (data_memory self).
Proof.
  unfold execute_command.
  destruct (opcode cmd); destruct (args cmd) as [|x [|y [|]]]; run_vm;
    try (intros [= _ <-]; auto);
    repeat match goal with
           | |- context [match ?o with Return _ => _ | Raise _ => _ end] =>
               destruct o eqn:?
           | |- context [if ?c then _ else _] => destruct c eqn:?
           end;
    intros [= _ <-]; cbn; auto;
    repeat match goal with
           | H : setitem _ _ _ = Return _ |- _ =>
               apply setitem_Return in H as (? & _ & ->)
           end;
    rewrite ?length_insert; auto.
Qed.

(** ** One step *)

Lemma execute_step_halted self :
  Z.of_nat (length (program self)) <= pc self ->
  execute_step self = (Return false, self).
Proof.
  intros H. unfold execute_step. run_vm.
  destruct (Z.of_nat (length (program self)) <=? pc self) eqn:E; [reflexivity|lia].
Qed.

Lemma execute_step_fetch self cmd :
  pc self < Z.of_nat (length (program self)) ->
  getitem (program self) (pc self) = Return cmd ->
  execute_step self =
  match execute_command cmd self with
  | (Return _, self') => (Return true, set_pc self' (pc self' + 1))
  | (Raise e, self') => (Raise e, self')
  end.
Proof.
  intros H Hc. unfold execute_step. run_vm.
  destruct (Z.of_nat (length (program self)) <=? pc self) eqn:E; [lia|].
  rewrite Hc. destruct (execute_command cmd self) as [[[]|e] self']; reflexivity.
Qed.

Lemma execute_step_Raise self e self' :
  execute_step self = (Raise e, self') -> self' = self.
Proof.
  unfold execute_step. run_vm.
  destruct (Z.of_nat (length (program self)) <=? pc self); [discriminate|].
  destruct (getitem (program self) (pc self)) as [cmd|]; [|intros [= _ <-]; reflexivity].
  destruct (execute_command cmd self) as [[[]|e'] s] eqn:E; [discriminate|].
  intros [= _ <-]. eapply execute_command_Raise; eassumption.
Qed.

Lemma execute_step_program self o self' :
  execute_step self = (o, self') -> program self' = program self.
Proof.
  unfold execute_step. run_vm.
  destruct (Z.of_nat (length (program self)) <=? pc self); [intros [= _ <-]; reflexivity|].
  destruct (getitem (program self) (pc self)) as [cmd|]; [|intros [= _ <-]; reflexivity].
  destruct (execute_command cmd self) as [[[]|e'] s] eqn:E;
    apply execute_command_frame in E as (Hp & _); intros [= _ <-]; exact Hp.
Qed.

(** C6.  [execute_step] on a machine whose program counter is not negative:
    when the counter has reached the length of the program the call returns
    [False] and the machine is unchanged; otherwise it fetches the command at
    the counter and runs it, and when that command completes the call
    returns [True] with the registers and the memory the command left, the
    same program, and the counter larger by exactly one.  (A command that
    raises makes the step raise, with the machine unchanged.) *)
Theorem execute_step_spec (self : VirtualMachine) :
  0 <= pc self ->
  (Z.of_nat (length (program self)) <= pc self ->
   execute_step self = (Return false, self)) /\
  (pc self < Z.of_nat (length (program self)) ->
   exists cmd,
     program self !! Z.to_nat (pc self) = Some cmd /\
     (forall self', execute_command cmd self = (Return tt, self') ->
        execute_step self = (Return true, set_pc self' (pc self + 1)) /\
        registers (set_pc self' (pc self + 1)) = registers self' /\
        data_memory (set_pc self' (pc self + 1)) = data_memory self' /\
        program (set_pc self' (pc self + 1)) = program self /\
        pc (set_pc self' (pc self + 1)) = pc self + 1) /\
     (forall e self', execute_command cmd self = (Raise e, self') ->
        execute_step self = (Raise e, self))).
Proof.
  intros Hpc. split; [apply execute_step_halted|].
  intros Hlt.
  destruct (lookup_lt_is_Some_2 (program self) (Z.to_nat (pc self)) ltac:(lia)) as [cmd Hcmd].
  exists cmd. split; [exact Hcmd|].
  pose proof (getitem_nonneg _ _ _ Hpc Hcmd) as Hget.
  split.
  - intros self' Hex. rewrite (execute_step_fetch self cmd Hlt Hget), Hex.
    destruct (execute_command_frame _ _ _ _ Hex) as (Hp & Hc & _).
    rewrite Hc. cbn. auto.
  - intros e self' Hex. rewrite (execute_step_fetch self cmd Hlt Hget), Hex.
    apply execute_command_Raise in Hex. subst. reflexivity.
Qed.

Lemma execute_step_spec_witness :
  let self := mkVM (repeat 0 32) (repeat 0 8)
                [mkCommand LOAD_CONST [1; 5] []] 0 in
  execute_step self = (Return true, set_pc (set_registers self (<[1%nat := 5]> (repeat 0 32))) 1).
Proof.
  intros self.
  destruct (execute_step_spec self ltac:(simpl; lia)) as [_ H].
  destruct (H ltac:(simpl; lia)) as (cmd & Hcmd & Hok & _).
  injection Hcmd as <-.
  exact (proj1 (Hok (set_registers self (<[1%nat := 5]> (repeat 0 32))) eq_refl)).
Defined.

(** ** Subscripts out of range *)

(** A subscript the list rejects makes the command raise [IndexError]
    before anything is assigned. *)
Lemma execute_command_oob cmd self :
  some_reference_fails subscript_ok self cmd = true ->
  execute_command cmd self = (Raise IndexError, self).
Proof.
  unfold some_reference_fails, references, execute_command.
  destruct (opcode cmd); destruct (args cmd) as [|x [|y [|]]];
    cbn [existsb fst snd orb]; try discriminate; run_vm; intros H.
  - (* LOAD_CONST *)
    rewrite orb_false_r in H. apply negb_true_iff in H.
    rewrite setitem_bad by exact H. reflexivity.
  - (* READ_MEM *)
    destruct (subscript_ok (length (registers self)) x) eqn:Ex.
    + destruct (getitem_ok _ _ Ex) as (k & a & _ & _ & Hg). rewrite Hg in *.
      cbn [existsb fst snd negb orb] in H.
      destruct (subscript_ok (length (data_memory self)) a) eqn:Ea.
      * destruct (getitem_ok _ _ Ea) as (k' & v & _ & _ & Hg'). rewrite Hg'.
        destruct (subscript_ok (length (registers self)) y) eqn:Ey.
        { cbn in H. discriminate. }
        rewrite setitem_bad by exact Ey. reflexivity.
      * rewrite getitem_bad by exact Ea. reflexivity.
    + rewrite getitem_bad by exact Ex. reflexivity.
  - (* WRITE_MEM *)
    destruct (subscript_ok (length (registers self)) y) eqn:Ey.
    + destruct (getitem_ok _ _ Ey) as (k & a & _ & _ & Hg). rewrite Hg in *.
      cbn [existsb fst snd negb orb] in H.
      destruct (subscript_ok (length (registers self)) x) eqn:Ex.
      * destruct (getitem_ok _ _ Ex) as (k' & v & _ & _ & Hg'). rewrite Hg'.
        cbn [negb orb] in H. rewrite orb_false_r in H. apply negb_true_iff in H.
        rewrite setitem_bad by exact H. reflexivity.
      * rewrite getitem_bad by exact Ex. reflexivity.
    + rewrite getitem_bad by exact Ey. reflexivity.
  - (* SHR *)
    destruct (subscript_ok (length (data_memory self)) y) eqn:Ey.
    + destruct (getitem_ok _ _ Ey) as (k & s & _ & _ & Hg). rewrite Hg.
      cbn [negb orb] in H. rewrite orb_false_r in H. apply negb_true_iff in H.
      rewrite getitem_bad by exact H. reflexivity.
    + rewrite getitem_bad by exact Ey. reflexivity.
Qed.

(** ** Loading *)

Lemma opcode_val_dec c : {o | c = Opcode_value o} + {unrecognized c}.
Proof.
  destruct (Z.eq_dec c (Opcode_value LOAD_CONST)); [left; eauto|].
  destruct (Z.eq_dec c (Opcode_value READ_MEM)); [left; eauto|].
  destruct (Z.eq_dec c (Opcode_value WRITE_MEM)); [left; eauto|].
  destruct (Z.eq_dec c (Opcode_value SHR)); [left; eauto|].
  right. intros []; assumption.
Qed.

Lemma cmd_len_of_known o : cmd_len_of (Opcode_value o) = Return (declared_width o).
Proof. destruct o; reflexivity. Qed.

Lemma cmd_len_of_unknown c : unrecognized c -> cmd_len_of c = Raise ValueError.
Proof.
  intros H. unfold cmd_len_of.
  pose proof (H LOAD_CONST) as H1. pose proof (H READ_MEM) as H2.
  pose proof (H WRITE_MEM) as H3. pose proof (H SHR) as H4.
  apply Z.eqb_neq in H1, H2, H3, H4. rewrite H1, H2, H3, H4. reflexivity.
Qed.

Lemma declared_width_pos o : (3 <= declared_width o)%nat.
Proof. destruct o; simpl; lia. Qed.

Lemma record_head data i b o :
  data !! i = Some b ->
  exists rest, record data i (declared_width o) = b :: rest.
Proof.
  intros H. unfold record. rewrite (drop_S _ _ _ H).
  pose proof (declared_width_pos o).
  destruct (declared_width o) as [|w]; [lia|]. cbn [firstn].
  destruct (_ <? _)%nat; cbn [ljust app]; eauto.
Qed.

Lemma load_loop_done fuel data i self :
  (length data <= i)%nat -> load_loop fuel data i self = Some (Return tt, self).
Proof.
  intros H. apply Nat.leb_le in H. destruct fuel; cbn [load_loop]; rewrite H; reflexivity.
Qed.

Lemma load_loop_known fuel data i self b o :
  data !! i = Some b ->
  opcode_val_of b = Opcode_value o ->
  load_loop (S fuel) data i self =
  load_loop fuel data (i + declared_width o)
    (set_program self
       (program self ++ [decoded o (record data i (declared_width o))])).
Proof.
  intros Hb Ho. cbn [load_loop].
  pose proof (lookup_lt_Some _ _ _ Hb) as Hlt.
  destruct (length data <=? i)%nat eqn:E; [apply Nat.leb_le in E; lia|].
  rewrite Hb. fold (opcode_val_of b). rewrite Ho, cmd_len_of_known.
  fold (record data i (declared_width o)).
  destruct (record_head data i b o Hb) as [rest Hr]. rewrite Hr.
  rewrite (from_binary_known o) by exact Ho. reflexivity.
Qed.

Lemma load_loop_unknown fuel data i self b :
  data !! i = Some b ->
  unrecognized (opcode_val_of b) ->
  load_loop (S fuel) data i self = Some (Raise ValueError, self).
Proof.
  intros Hb Ho. cbn [load_loop].
  pose proof (lookup_lt_Some _ _ _ Hb) as Hlt.
  destruct (length data <=? i)%nat eqn:E; [apply Nat.leb_le in E; lia|].
  rewrite Hb. fold (opcode_val_of b). rewrite cmd_len_of_unknown by exact Ho.
  reflexivity.
Qed.

(** With fuel for every remaining byte the loop ends: it returns, or it
    raises [ValueError]; it only ever appends decoded commands to the
    program and touches nothing else. *)
Lemma load_loop_total fuel : forall data i self,
  (length data <= i + fuel)%nat ->
  exists o cmds,
    load_loop fuel data i self = Some (o, set_program self (program self ++ cmds)) /\
    (o = Return tt \/ o = Raise ValueError) /\
    Forall (fun cmd => operands_in_range cmd = true) cmds.
Proof.
  assert (Hnil : forall self, set_program self (program self ++ []) = self).
  { intros []. unfold set_program. cbn. rewrite app_nil_r. reflexivity. }
  induction fuel as [|fuel IH]; intros data i self Hf.
  - exists (Return tt), []. rewrite load_loop_done by lia. rewrite Hnil. auto.
  - destruct (data !! i) as [b|] eqn:Hb.
    + destruct (opcode_val_dec (opcode_val_of b)) as [[o Ho]|Hu].
      * rewrite (load_loop_known _ _ _ _ b o Hb Ho).
        pose proof (declared_width_pos o).
        destruct (IH data (i + declared_width o)%nat
                    (set_program self (program self ++
                       [decoded o (record data i (declared_width o))])))
          as (r & cmds & Hl & Hr & Hc); [lia|].
        exists r, (decoded o (record data i (declared_width o)) :: cmds).
        rewrite Hl. cbn. rewrite <- app_assoc. cbn.
        split; [reflexivity|]. split; [exact Hr|].
        constructor; [apply decoded_in_range | exact Hc].
      * exists (Raise ValueError), [].
        rewrite (load_loop_unknown _ _ _ _ b Hb Hu), Hnil. auto.
    + apply lookup_ge_None in Hb.
      exists (Return tt), []. rewrite load_loop_done by lia. rewrite Hnil. auto.
Qed.

(** [load_program] always ends, and leaves a program made only of what it
    decoded from the input. *)
Lemma load_program_total data self :
  exists o cmds,
    load_program data self = Some (o, set_program self cmds) /\
    (o = Return tt \/ o = Raise ValueError) /\
    Forall (fun cmd => operands_in_range cmd = true) cmds.
Proof.
  unfold load_program.
  destruct (load_loop_total (length data) data 0 (set_program self []) ltac:(lia))
    as (o & cmds & H & Ho & Hc).
  exists o, cmds. rewrite H. cbn. auto.
Qed.

Lemma scan_le data i k : scan data i k -> (i <= k)%nat.
Proof. induction 1; lia. Qed.

Lemma record_prefix data i w k :
  (i + w <= k)%nat -> record (firstn k data) i w = record data i w.
Proof.
  intros H. unfold record.
  rewrite skipn_firstn_comm, firstn_firstn.
  replace (Nat.min w (k - i)) with w by lia. reflexivity.
Qed.

(** Scanning from the boundary [i] up to a boundary [k] that carries an
    unrecognized code: the loop raises [ValueError] having appended the
    commands of the records in between, the same commands that loading the
    bytes before [k] appends. *)
Lemma load_loop_bad data i k :
  scan data i k ->
  (exists b, data !! k = Some b /\ unrecognized (opcode_val_of b)) ->
  forall fuel fuel' self,
    (length data <= i + fuel)%nat -> (k <= i + fuel')%nat ->
    exists cmds,
      load_loop fuel data i self =
        Some (Raise ValueError, set_program self (program self ++ cmds)) /\
      load_loop fuel' (firstn k data) i self =
        Some (Return tt, set_program self (program self ++ cmds)) /\
      (cmds = [] <-> i = k).
Proof.
  assert (Hnil : forall self, set_program self (program self ++ []) = self).
  { intros []. unfold set_program. cbn. rewrite app_nil_r. reflexivity. }
  induction 1 as [i | i b o k Hb Ho Hscan IH]; intros (bk & Hbk & Hbad) fuel fuel' self Hf Hf'.
  - exists []. pose proof (lookup_lt_Some _ _ _ Hbk) as Hlt.
    destruct fuel as [|fuel]; [lia|].
    rewrite (load_loop_unknown _ _ _ _ bk Hbk Hbad).
    rewrite load_loop_done by (rewrite length_firstn; lia).
    rewrite Hnil. tauto.
  - pose proof (scan_le _ _ _ Hscan) as Hle.
    pose proof (declared_width_pos o) as Hw.
    pose proof (lookup_lt_Some _ _ _ Hb) as Hlt.
    destruct fuel as [|fuel]; [lia|]. destruct fuel' as [|fuel']; [lia|].
    rewrite (load_loop_known _ _ _ _ b o Hb Ho).
    rewrite (load_loop_known _ (firstn k data) _ _ b o); [| |exact Ho].
    2:{ rewrite lookup_take_lt by lia. exact Hb. }
    rewrite record_prefix by lia.
    set (cmd := decoded o (record data i (declared_width o))).
    destruct (IH (ex_intro _ bk (conj Hbk Hbad)) fuel fuel'
                (set_program self (program self ++ [cmd])))
      as (cmds & H1 & H2 & _); [lia | lia |].
    exists (cmd :: cmds). rewrite H1, H2. cbn. rewrite <- app_assoc. cbn.
    split; [reflexivity|]. split; [reflexivity|].
    split; [discriminate | lia].
Qed.

(** C4 (as the code has it).  When the input has an unrecognized opcode code
    at a record boundary [k], [load_program] raises [ValueError]; registers,
    memory and program counter are untouched and the previous program is
    gone, but the machine keeps the commands decoded from the records before
    [k]: its program is the one a successful load of the first [k] bytes
    produces, and it is empty only when the offending record is the first. *)
Theorem load_program_bad_record (data : list byte) (k : nat) (self : VirtualMachine) :
  bad_record_at data k ->
  exists cmds,
    load_program data self = Some (Raise ValueError, set_program self cmds) /\
    load_program (firstn k data) self = Some (Return tt, set_program self cmds) /\
    (cmds = [] <-> k = 0%nat).
Proof.
  intros [Hscan Hbad]. unfold load_program.
  destruct (load_loop_bad data 0 k Hscan Hbad (length data) (length (firstn k data))
              (set_program self []))
    as (cmds & H1 & H2 & H3).
  - lia.
  - destruct Hbad as (b & Hb & _). apply lookup_lt_Some in Hb.
    rewrite length_firstn. lia.
  - exists cmds. rewrite H1, H2. cbn. split; [reflexivity|]. split; [reflexivity|].
    rewrite H3. split; intros; congruence.
Qed.

Lemma bad_stream_bad : bad_record_at bad_stream 5.
Proof.
  split.
  - eapply (scan_next _ 0 Byte.x2c LOAD_CONST); [reflexivity | reflexivity |].
    apply scan_here.
  - exists Byte.x00. split; [reflexivity|]. intros []; discriminate.
Qed.

Lemma load_program_bad_record_witness :
  bad_record_at bad_stream 5 /\
  exists cmds,
    load_program bad_stream (init 4) = Some (Raise ValueError, set_program (init 4) cmds) /\
    load_program (firstn 5 bad_stream) (init 4) = Some (Return tt, set_program (init 4) cmds) /\
    (cmds = [] <-> 5%nat = 0%nat).
Proof.
  split; [exact bad_stream_bad|].
  exact (load_program_bad_record bad_stream 5 (init 4) bad_stream_bad).
Defined.

(** C4 as stated fails: after the failed load the machine holds the command
    of the record that precedes the offending byte. *)
Lemma load_program_keeps_partial_program :
  bad_record_at bad_stream 5 /\
  exists self',
    load_program bad_stream (init 4) = Some (Raise ValueError, self') /\
    program self' = [mkCommand LOAD_CONST [0; 5]
                       [Byte.x2c; Byte.x50; Byte.x00; Byte.x00; Byte.x00]] /\
    program self' <> [].
Proof.
  split; [exact bad_stream_bad|].
  eexists. split; [vm_compute; reflexivity|].
  split; [reflexivity | discriminate].
Qed.

(** ** Errors of the two phases *)

(** The loader's only exception is [ValueError]. *)
Lemma load_program_Raise data self e self' :
  load_program data self = Some (Raise e, self') -> e = ValueError.
Proof.
  destruct (load_program_total data self) as (o & cmds & H & [->| ->] & _);
    rewrite H; congruence.
Qed.

(** C5 (as the code has it).  A command one of whose subscripts is rejected
    by Python's list indexing (below [-len] or at least [len]) raises
    [IndexError] and leaves the machine untouched; the step that fetched it
    raises the same way, with the program counter not advanced.  The loader
    never raises [IndexError]: its failures are [ValueError]. *)
Theorem out_of_range_subscript_raises (self : VirtualMachine) (cmd : Command) :
  some_reference_fails subscript_ok self cmd = true ->
  execute_command cmd self = (Raise IndexError, self) /\
  (0 <= pc self -> program self !! Z.to_nat (pc self) = Some cmd ->
   execute_step self = (Raise IndexError, self)) /\
  (forall data m e m', load_program data m = Some (Raise e, m') -> e <> IndexError).
Proof.
  intros H. pose proof (execute_command_oob cmd self H) as Hc.
  split; [exact Hc|]. split.
  - intros Hpc Hcmd.
    pose proof (lookup_lt_Some _ _ _ Hcmd) as Hlt.
    rewrite (execute_step_fetch self cmd) by (try apply getitem_nonneg; auto; lia).
    rewrite Hc. reflexivity.
  - intros data m e m' Hl. apply load_program_Raise in Hl. subst. discriminate.
Qed.

Lemma out_of_range_subscript_raises_witness :
  let cmd := mkCommand READ_MEM [0; 1] read_0_1 in
  let self := set_program (init 0) [cmd] in
  load_program read_0_1 (init 0) = Some (Return tt, self) /\
  some_reference_fails subscript_ok self cmd = true /\
  execute_step self = (Raise IndexError, self).
Proof.
  intros cmd self.
  assert (H : some_reference_fails subscript_ok self cmd = true) by reflexivity.
  split; [reflexivity|]. split; [exact H|].
  destruct (out_of_range_subscript_raises self cmd H) as (_ & Hstep & _).
  apply Hstep; [simpl; lia | reflexivity].
Defined.

(** C5 as stated fails: with -1 in register 0, the loaded command
    [READ_MEM 0 1] reads the memory address -1, outside the declared bounds
    [0, 3] of a four-cell memory, yet the step completes: register 1
    receives the last cell. *)
Lemma negative_subscript_wraps :
  let before := mkVM (<[0%nat := -1]> (repeat 0 32)) [0; 0; 0; 9] [] 0 in
  exists self cmd self',
    load_program read_0_1 before = Some (Return tt, self) /\
    program self = [cmd] /\
    some_reference_fails in_declared_bounds self cmd = true /\
    execute_step self = (Return true, self') /\
    registers self' !! 1%nat = Some 9 /\ pc self' = 1.
Proof.
  intros before. eexists. eexists. eexists.
  split; [vm_compute; reflexivity|]. split; [reflexivity|].
  split; [reflexivity|]. split; [vm_compute; reflexivity|].
  split; reflexivity.
Qed.

(** On the states the machine reaches by itself (no negative value, operands
    in range) every subscript is non-negative, so leaving the declared
    bounds and being rejected by the list are the same thing. *)
Lemma references_nonneg self cmd :
  values_nonneg self -> operands_in_range cmd = true ->
  Forall (fun r => 0 <= snd r) (references self cmd).
Proof.
  intros [Hregs _] Hr.
  destruct (operands_in_range_inv cmd Hr) as (b & a & Hargs & Hb & Ha).
  unfold references. rewrite Hargs.
  destruct (opcode cmd);
    repeat match goal with
           | |- context [match ?o with Return _ => _ | Raise _ => _ end] =>
               destruct o eqn:?
           end;
    repeat (apply Forall_cons; split); try apply Forall_nil; cbn [snd]; try lia;
    eapply (getitem_Forall (fun v => 0 <= v)); eassumption.
Qed.

Lemma declared_bounds_on_nonneg n i :
  0 <= i -> in_declared_bounds n i = subscript_ok n i.
Proof.
  intros H. unfold in_declared_bounds, subscript_ok.
  destruct (0 <=? i) eqn:E1; [|lia].
  destruct (- Z.of_nat n <=? i) eqn:E2; [reflexivity | lia].
Qed.

Lemma out_of_declared_bounds_raises self cmd :
  values_nonneg self -> operands_in_range cmd = true ->
  some_reference_fails in_declared_bounds self cmd = true ->
  execute_command cmd self = (Raise IndexError, self).
Proof.
  intros Hv Hr H. apply execute_command_oob.
  pose proof (references_nonneg self cmd Hv Hr) as Hn.
  revert H. unfold some_reference_fails.
  induction Hn as [|[n i] refs Hi _ IH]; cbn [existsb fst snd]; [discriminate|].
  cbn [snd] in Hi. rewrite (declared_bounds_on_nonneg n i Hi).
  destruct (negb (subscript_ok n i)); cbn [orb]; auto.
Qed.

(** ** SHR *)




(** ** Values stay non-negative *)

Lemma Forall_repeat {A : Type} (P : A -> Prop) (x : A) (n : nat) :
  P x -> Forall P (repeat x n).
Proof. intros H. induction n; cbn [repeat]; constructor; assumption. Qed.

Lemma init_values_nonneg size : values_nonneg (init size).
Proof. split; cbn [init registers data_memory]; apply Forall_repeat; lia. Qed.

Lemma execute_command_nonneg cmd self self' :
  operands_in_range cmd = true ->
  values_nonneg self ->
  execute_command cmd self = (Return tt, self') ->
  values_nonneg self'.
Proof.
  intros Hr [Hregs Hmem].
  destruct (operands_in_range_inv cmd Hr) as (b & a & Hargs & Hb & Ha).
  unfold execute_command. rewrite Hargs.
  destruct (opcode cmd); run_vm;
    repeat match goal with
           | |- context [match ?o with Return _ => _ | Raise _ => _ end] =>
               destruct o eqn:?
           | |- context [if ?c then _ else _] => destruct c eqn:?
           end;
    intros [= <-]; split; cbn [registers data_memory set_registers set_data_memory];
    try assumption;
    repeat match goal with
           | H : (if ?c then _ else _) = Return _ |- _ => destruct c eqn:?; [discriminate|]
           | H : Return _ = Return _ |- _ => injection H as <-
           end.
  - eapply setitem_Forall; [exact Hregs | | eassumption]. cbn beta. lia.
  - eapply setitem_Forall; [exact Hregs | | eassumption].
    eapply (getitem_Forall (fun v => 0 <= v)); [exact Hmem | eassumption].
  - eapply setitem_Forall; [exact Hmem | | eassumption].
    eapply (getitem_Forall (fun v => 0 <= v)); [exact Hregs | eassumption].
  - eapply setitem_Forall; [exact Hregs | | eassumption]. cbn beta.
    apply Z.shiftr_nonneg.
    eapply (getitem_Forall (fun v => 0 <= v)); [exact Hregs | eassumption].
Qed.

Lemma execute_step_nonneg self stepped self' :
  program_in_range self ->
  values_nonneg self ->
  execute_step self = (Return stepped, self') ->
  values_nonneg self' /\ program_in_range self'.
Proof.
  intros Hp Hv H.
  split; [|unfold program_in_range; rewrite (execute_step_program _ _ _ H); exact Hp].
  revert H. unfold execute_step. run_vm.
  destruct (Z.of_nat (length (program self)) <=? pc self); [intros [= _ <-]; exact Hv|].
  destruct (getitem (program self) (pc self)) as [cmd|] eqn:Hg; [|discriminate].
  destruct (execute_command cmd self) as [[[]|e] s] eqn:E; [|discriminate].
  intros [= _ <-].
  apply (execute_command_nonneg cmd self s) in E; [exact E | | exact Hv].
  eapply (getitem_Forall (fun c => operands_in_range c = true)); [exact Hp | exact Hg].
Qed.

Lemma steps_nonneg self self' :
  steps self self' ->
  program_in_range self -> values_nonneg self ->
  values_nonneg self'.
Proof.
  induction 1 as [|self stepped self' self'' Hs _ IH]; intros Hp Hv; [exact Hv|].
  destruct (execute_step_nonneg _ _ _ Hp Hv Hs) as [Hv' Hp']. auto.
Qed.

(** C9.  A freshly constructed machine of any memory size, a program loaded
    into it from any byte stream, then any sequence of completed steps:
    every register and every memory cell holds a non-negative integer. *)
Theorem values_stay_nonneg (data_mem_size : Z) (data : list byte)
  (loaded self : VirtualMachine) :
  load_program data (init data_mem_size) = Some (Return tt, loaded) ->
  steps loaded self ->
  Forall (fun v => 0 <= v) (registers self) /\
  Forall (fun v => 0 <= v) (data_memory self).
Proof.
  intros Hl Hs.
  destruct (load_program_total data (init data_mem_size)) as (o & cmds & H & _ & Hc).
  rewrite H in Hl. injection Hl as -> <-.
  apply (steps_nonneg _ _ Hs).
  - exact Hc.
  - apply (init_values_nonneg data_mem_size).
Qed.

Lemma values_stay_nonneg_witness :
  let data := [Byte.xac; Byte.x50; Byte.x00; Byte.x00; Byte.x00] in
  exists loaded self,
    load_program data (init 4) = Some (Return tt, loaded) /\
    steps loaded self /\
    registers self !! 1%nat = Some 5 /\
    Forall (fun v => 0 <= v) (registers self) /\
    Forall (fun v => 0 <= v) (data_memory self).
Proof.
  intros data.
  eexists. eexists.
  assert (Hl : load_program data (init 4) =
               Some (Return tt, set_program (init 4)
                 [mkCommand LOAD_CONST [1; 5] data])) by reflexivity.
  assert (Hs : steps (set_program (init 4) [mkCommand LOAD_CONST [1; 5] data])
                 (set_pc (set_registers (set_program (init 4) [mkCommand LOAD_CONST [1; 5] data])
                            (<[1%nat := 5]> (repeat 0 32))) 1)).
  { eapply steps_more; [reflexivity | apply steps_done]. }
  split; [exact Hl|]. split; [exact Hs|]. split; [reflexivity|].
  exact (values_stay_nonneg 4 data _ _ Hl Hs).
Defined.

(** ** Running *)

Lemma execute_step_Return self stepped self' :
  execute_step self = (Return stepped, self') ->
  program self' = program self /\
  (if stepped
   then pc self < Z.of_nat (length (program self)) /\ pc self' = pc self + 1
   else Z.of_nat (length (program self)) <= pc self /\ self' = self).
Proof.
  intros H. split; [exact (execute_step_program _ _ _ H)|].
  revert H. unfold execute_step. run_vm.
  destruct (Z.of_nat (length (program self)) <=? pc self) eqn:E.
  - intros [= <- <-]. split; [lia | reflexivity].
  - destruct (getitem (program self) (pc self)) as [cmd|]; [|discriminate].
    destruct (execute_command cmd self) as [[[]|e] s] eqn:Ec; [|discriminate].
    intros [= <- <-]. apply execute_command_frame in Ec as (_ & Hpc & _).
    cbn [pc set_pc]. split; lia.
Qed.

(** The loop of [run] ends within [max_steps - steps + 1] tests. *)
Lemma run_loop_total fuel : forall max_steps steps self,
  (Z.to_nat (max_steps - steps) < fuel)%nat ->
  exists r, run_loop fuel max_steps steps self = Some r.
Proof.
  induction fuel as [|fuel IH]; intros max_steps steps self Hf; [lia|].
  cbn [run_loop].
  destruct (execute_step self) as [[stepped|e] self']; [|eauto].
  destruct stepped; cbn [andb]; [|eauto].
  destruct (steps <? max_steps) eqn:E; [|eauto].
  apply IH. lia.
Qed.

Lemma run_total max_steps self : exists r, run max_steps self = Some r.
Proof. apply run_loop_total. rewrite Z.sub_0_r. lia. Qed.

(** Where [run] leaves the program counter when no command raises: the
    loop executes one step more than [max_steps] allows, because the step is
    taken before [steps] is compared with the bound. *)
Lemma run_loop_pc fuel : forall max_steps steps self self',
  0 <= pc self <= Z.of_nat (length (program self)) ->
  run_loop fuel max_steps steps self = Some (Return tt, self') ->
  pc self' = Z.min (Z.of_nat (length (program self)))
                   (pc self + Z.max 0 (max_steps - steps) + 1).
Proof.
  induction fuel as [|fuel IH]; intros max_steps steps self self' Hpc; [discriminate|].
  cbn [run_loop].
  destruct (execute_step self) as [[stepped|e] s] eqn:E; [|discriminate].
  apply execute_step_Return in E as [Hprog Hs].
  destruct stepped; cbn [andb].
  - destruct Hs as [Hlt Hs].
    destruct (steps <? max_steps) eqn:El.
    + intros H. apply IH in H; [|rewrite Hprog; lia].
      rewrite H, Hprog, Hs. lia.
    + intros [= <-]. rewrite Hs. lia.
  - destruct Hs as [Hge ->]. intros [= <-]. lia.
Qed.

Lemma run_pc max_steps self self' :
  pc self = 0 ->
  run max_steps self = Some (Return tt, self') ->
  pc self' = Z.min (Z.of_nat (length (program self))) (Z.max 0 max_steps + 1).
Proof.
  intros H0 H. apply run_loop_pc in H; [|lia].
  rewrite H, H0, Z.sub_0_r. reflexivity.
Qed.

Lemma run_loop_steps fuel : forall max_steps n self o self',
  run_loop fuel max_steps n self = Some (o, self') -> steps self self'.
Proof.
  induction fuel as [|fuel IH]; intros max_steps n self o self'; [discriminate|].
  cbn [run_loop].
  destruct (execute_step self) as [[stepped|e] s] eqn:E.
  - destruct (stepped && (n <? max_steps)).
    + intros H. eapply steps_more; [exact E | eapply IH; exact H].
    + intros [= _ <-]. eapply steps_more; [exact E | apply steps_done].
  - intros [= _ <-]. apply execute_step_Raise in E. subst. apply steps_done.
Qed.

(** C3, on the code: a loaded program of two instructions run with
    [max_steps = 1] executes both of them and stops with the program counter
    at 2, not at [min(2, 1) = 1]. *)
Theorem run_oversteps_max_steps :
  exists loaded self',
    load_program two_loads (init 4) = Some (Return tt, loaded) /\
    length (program loaded) = 2%nat /\
    run 1 loaded = Some (Return tt, self') /\
    pc self' = 2 /\
    registers self' !! 2%nat = Some 7 /\
    pc self' <> Z.min (Z.of_nat (length (program loaded))) 1.
Proof.
  eexists. eexists. split; [vm_compute; reflexivity|].
  split; [reflexivity|]. split; [vm_compute; reflexivity|].
  split; [reflexivity|]. split; [reflexivity|]. cbn. lia.
Qed.

(** ** Dumping *)

Lemma dump_loop_spec mem : forall addrs dump,
  Forall (fun a => 0 <= a < Z.of_nat (length mem)) addrs ->
  dump_loop mem addrs dump =
  Return (dump ++ map (fun a => (a, default 0 (mem !! Z.to_nat a))) addrs).
Proof.
  induction addrs as [|a addrs IH]; intros dump Hin; cbn [dump_loop map].
  - rewrite app_nil_r. reflexivity.
  - apply Forall_cons in Hin as [Ha Hin].
    destruct (lookup_lt_is_Some_2 mem (Z.to_nat a) ltac:(lia)) as [v Hv].
    rewrite (getitem_nonneg mem a v) by (try exact Hv; lia).
    cbn [obind]. rewrite IH by exact Hin. rewrite Hv, <- app_assoc. reflexivity.
Qed.

Lemma py_range_length start stop :
  Z.of_nat (length (py_range start stop)) = Z.max 0 (stop - start).
Proof. unfold py_range. rewrite length_map, length_seq. lia. Qed.

Lemma py_range_lookup start stop (j : nat) :
  (j < length (py_range start stop))%nat ->
  py_range start stop !! j = Some (start + Z.of_nat j).
Proof.
  unfold py_range. rewrite length_map, length_seq. intros H.
  rewrite list_lookup_fmap, lookup_seq_lt by exact H. reflexivity.
Qed.

(** [dump_memory] from a start address that is not negative: it returns,
    with one pair for each address from [start_addr] up to the smaller of
    [end_addr] and the last index, in increasing order. *)
Lemma dump_memory_spec self start_addr end_addr :
  0 <= start_addr ->
  exists pairs,
    dump_memory self start_addr end_addr = Return pairs /\
    Z.of_nat (length pairs) =
      Z.max 0 (Z.min (end_addr + 1) (Z.of_nat (length (data_memory self))) - start_addr) /\
    (forall j : nat, (j < length pairs)%nat ->
       exists v, pairs !! j = Some (start_addr + Z.of_nat j, v) /\
                 data_memory self !! Z.to_nat (start_addr + Z.of_nat j) = Some v).
Proof.
  intros Hs. unfold dump_memory.
  set (mem := data_memory self).
  set (stop := Z.min (end_addr + 1) (Z.of_nat (length mem))).
  assert (Hin : Forall (fun a => 0 <= a < Z.of_nat (length mem)) (py_range start_addr stop)).
  { apply Forall_lookup_2. intros j a Ha.
    pose proof (lookup_lt_Some _ _ _ Ha) as Hj.
    rewrite py_range_lookup in Ha by exact Hj. injection Ha as <-.
    pose proof (py_range_length start_addr stop). lia. }
  rewrite dump_loop_spec by exact Hin. cbn [app].
  eexists. split; [reflexivity|].
  rewrite length_map. split; [apply py_range_length|].
  intros j Hj.
  pose proof (py_range_lookup _ _ _ Hj) as Hl.
  rewrite list_lookup_fmap, Hl. cbn.
  pose proof (Forall_lookup_1 _ _ _ _ Hin Hl) as Hb. cbn beta in Hb.
  destruct (lookup_lt_is_Some_2 mem (Z.to_nat (start_addr + Z.of_nat j)) ltac:(lia)) as [v Hv].
  exists v. rewrite Hv. auto.
Qed.

(** C7 (as the code has it).  With [0 <= start] and [end >= M] the dump
    never fails and returns [max(M - start, 0)] pairs, the [j]-th being the
    address [start + j] with the content of that cell: [M - start] pairs when
    [start <= M], none when [start] lies beyond the memory. *)
Theorem dump_memory_clamps (self : VirtualMachine) (start_addr end_addr : Z) :
  0 <= start_addr ->
  Z.of_nat (length (data_memory self)) <= end_addr ->
  exists pairs,
    dump_memory self start_addr end_addr = Return pairs /\
    Z.of_nat (length pairs) =
      Z.max (Z.of_nat (length (data_memory self)) - start_addr) 0 /\
    (forall j : nat, (j < length pairs)%nat ->
       exists v, pairs !! j = Some (start_addr + Z.of_nat j, v) /\
                 data_memory self !! Z.to_nat (start_addr + Z.of_nat j) = Some v).
Proof.
  intros Hs He.
  destruct (dump_memory_spec self start_addr end_addr Hs) as (pairs & Hd & Hlen & Hj).
  exists pairs. split; [exact Hd|]. split; [lia | exact Hj].
Qed.

Lemma dump_memory_clamps_witness :
  let self := mkVM (repeat 0 32) [7; 8; 9] [] 0 in
  0 <= 1 /\ Z.of_nat (length (data_memory self)) <= 7 /\
  exists pairs,
    dump_memory self 1 7 = Return pairs /\
    Z.of_nat (length pairs) = Z.max (Z.of_nat (length (data_memory self)) - 1) 0 /\
    (forall j : nat, (j < length pairs)%nat ->
       exists v, pairs !! j = Some (1 + Z.of_nat j, v) /\
                 data_memory self !! Z.to_nat (1 + Z.of_nat j) = Some v).
Proof.
  intros self.
  assert (H0 : 0 <= 1) by lia.
  assert (H1 : Z.of_nat (length (data_memory self)) <= 7) by (cbn; lia).
  split; [exact H0|]. split; [exact H1|].
  exact (dump_memory_clamps self 1 7 H0 H1).
Defined.

(** C7 as stated fails when the start address lies beyond the memory: on a
    memory of 2 cells, [dump_memory(5, 7)] returns no pair, not [2 - 5]. *)
Lemma dump_memory_beyond_memory :
  let self := mkVM (repeat 0 32) [7; 8] [] 0 in
  0 <= 5 /\ Z.of_nat (length (data_memory self)) <= 7 /\
  dump_memory self 5 7 = Return [] /\
  Z.of_nat (@length (Z * Z) []) <> Z.of_nat (length (data_memory self)) - 5.
Proof.
  intros self.
  split; [lia|]. split; [cbn; lia|]. split; [reflexivity | cbn; lia].
Qed.

(** ** The codec, claim by claim *)

(** C1, on the code: in range, the encoder returns four bytes for
    LOAD_CONST and two bytes for READ_MEM and WRITE_MEM, where the declared
    record widths are five and three, and it raises [struct.error] as soon as
    the packed value needs the missing byte; only SHR comes out at its
    declared six bytes. *)
Theorem to_binary_misses_declared_width :
  (operands_in_range (mkCommand LOAD_CONST [1; 5] []) = true /\
   to_binary (mkCommand LOAD_CONST [1; 5] [])
     = Return [Byte.xac; Byte.x50; Byte.x00; Byte.x00] /\
   declared_width LOAD_CONST = 5%nat) /\
  (operands_in_range (mkCommand LOAD_CONST [0; 2 ^ 20] []) = true /\
   to_binary (mkCommand LOAD_CONST [0; 2 ^ 20] []) = Raise StructError) /\
  (operands_in_range (mkCommand READ_MEM [1; 2] []) = true /\
   to_binary (mkCommand READ_MEM [1; 2] []) = Return [Byte.xf8; Byte.x20] /\
   declared_width READ_MEM = 3%nat) /\
  (operands_in_range (mkCommand READ_MEM [0; 16] []) = true /\
   to_binary (mkCommand READ_MEM [0; 16] []) = Raise StructError) /\
  (operands_in_range (mkCommand WRITE_MEM [1; 2] []) = true /\
   to_binary (mkCommand WRITE_MEM [1; 2] []) = Return [Byte.xa2; Byte.x20] /\
   declared_width WRITE_MEM = 3%nat) /\
  (operands_in_range (mkCommand WRITE_MEM [0; 16] []) = true /\
   to_binary (mkCommand WRITE_MEM [0; 16] []) = Raise StructError) /\
  (operands_in_range (mkCommand SHR [31; 2 ^ 30 - 1] []) = true /\
   to_binary (mkCommand SHR [31; 2 ^ 30 - 1] [])
     = Return [Byte.xa5; Byte.xff; Byte.xff; Byte.xff; Byte.xff; Byte.x03]).
Proof. repeat split; vm_compute; reflexivity. Qed.

(** C2, on the code: for in-range operands the encoder raises before there
    is anything to decode, so the round trip yields no instruction. *)
Theorem round_trip_raises :
  (operands_in_range (mkCommand READ_MEM [0; 16] []) = true /\
   (bs <-! to_binary (mkCommand READ_MEM [0; 16] []) ;; from_binary bs)
     = Raise StructError) /\
  (operands_in_range (mkCommand WRITE_MEM [0; 16] []) = true /\
   (bs <-! to_binary (mkCommand WRITE_MEM [0; 16] []) ;; from_binary bs)
     = Raise StructError) /\
  (operands_in_range (mkCommand LOAD_CONST [0; 2 ^ 20] []) = true /\
   (bs <-! to_binary (mkCommand LOAD_CONST [0; 2 ^ 20] []) ;; from_binary bs)
     = Raise StructError).
Proof. repeat split; vm_compute; reflexivity. Qed.

(** Where the round trip does return, the command that comes back has the
    record in [raw_bytes]: it equals the original only when the original
    already carried its own encoding there. *)
Lemma round_trip_raw_bytes :
  (bs <-! to_binary (mkCommand SHR [1; 2] []) ;; from_binary bs)
  = Return (mkCommand SHR [1; 2]
              [Byte.xa5; Byte.x20; Byte.x00; Byte.x00; Byte.x00; Byte.x00]).
Proof. vm_compute. reflexivity. Qed.

(** C10.  Whatever bytes the decoder accepts, the operands it returns lie
    in their field ranges (registers in [0, 31], the constant of LOAD_CONST
    in [0, 2^24 - 1], the address of SHR in [0, 2^30 - 1]); hence every
    command of a loaded program does. *)
Theorem decoded_operands_in_range :
  (forall (binary : list byte) (cmd : Command),
      from_binary binary = Return cmd -> operands_in_range cmd = true) /\
  (forall (data : list byte) (self loaded : VirtualMachine),
      load_program data self = Some (Return tt, loaded) ->
      Forall (fun cmd => operands_in_range cmd = true) (program loaded)).
Proof.
  split.
  - intros binary cmd H.
    apply from_binary_Return in H as (first & rest & _ & _ & ->).
    apply decoded_in_range.
  - intros data self loaded H.
    destruct (load_program_total data self) as (o & cmds & Hl & _ & Hc).
    rewrite Hl in H. injection H as _ <-. exact Hc.
Qed.

Lemma decoded_operands_in_range_witness :
  operands_in_range
    (mkCommand SHR [31; 2 ^ 30 - 1]
       [Byte.xa5; Byte.xff; Byte.xff; Byte.xff; Byte.xff; Byte.xff]) = true /\
  Forall (fun cmd => operands_in_range cmd = true)
    (program (set_program (init 4)
       [mkCommand LOAD_CONST [1; 5] [Byte.xac; Byte.x50; Byte.x00; Byte.x00; Byte.x00];
        mkCommand LOAD_CONST [2; 7] [Byte.x2c; Byte.x71; Byte.x00; Byte.x00; Byte.x00]])).
Proof.
  split.
  - apply (proj1 decoded_operands_in_range
             [Byte.xa5; Byte.xff; Byte.xff; Byte.xff; Byte.xff; Byte.xff]).
    reflexivity.
  - apply (proj2 decoded_operands_in_range two_loads (init 4)).
    reflexivity.
Defined.

(** * Further properties of the code *)

(** ** The decoder *)

(** X1.  [from_binary] raises exactly on the empty input and on an input
    whose first byte carries no opcode code in its low seven bits, and the
    exception is always [ValueError]. *)
Theorem from_binary_raises_iff (binary : list byte) (e : exn) :
  from_binary binary = Raise e <->
  e = ValueError /\
  (binary = [] \/
   exists first rest, binary = first :: rest /\ unrecognized (opcode_val_of first)).
Proof.
  split.
  - destruct binary as [|first rest].
    + intros [= <-]. auto.
    + destruct (opcode_val_dec (opcode_val_of first)) as [[o Ho]|Hu].
      * rewrite (from_binary_known o) by exact Ho. discriminate.
      * rewrite from_binary_unknown by exact Hu. intros [= <-]. eauto 6.
  - intros [-> [-> | (first & rest & -> & Hu)]]; [reflexivity|].
    apply from_binary_unknown. exact Hu.
Qed.

Lemma padded_length (w : nat) (binary : list byte) :
  length (firstn w (if (length binary <? w)%nat then ljust binary w else binary)) = w.
Proof.
  destruct (length binary <? w)%nat eqn:E.
  - apply Nat.ltb_lt in E. unfold ljust.
    rewrite length_firstn, length_app, repeat_length. lia.
  - apply Nat.ltb_ge in E. rewrite length_firstn. lia.
Qed.

(** X2.  The [raw_bytes] of a decoded command are the record itself: they
    have the declared width of the opcode, and decoding them again, with
    whatever bytes follow, gives the same command.  The decoder reads no
    further than the record. *)
Theorem from_binary_raw_bytes (binary : list byte) (cmd : Command) :
  from_binary binary = Return cmd ->
  length (raw_bytes cmd) = declared_width (opcode cmd) /\
  forall rest, from_binary (raw_bytes cmd ++ rest) = Return cmd.
Proof.
  intros H. apply from_binary_Return in H as (first & tl & Hb & Hcode & Hcmd).
  remember (opcode cmd) as o eqn:Ho.
  remember (declared_width o) as w eqn:Hw.
  assert (Hraw : raw_bytes cmd =
                 firstn w (if (length binary <? w)%nat then ljust binary w else binary)).
  { rewrite Hcmd, Hw. reflexivity. }
  assert (Hlen : length (raw_bytes cmd) = w) by (rewrite Hraw; apply padded_length).
  split; [exact Hlen|]. intros rest.
  assert (Hpos : (3 <= w)%nat) by (rewrite Hw; apply declared_width_pos).
  assert (Hhd : exists tl', raw_bytes cmd = first :: tl').
  { rewrite Hraw, Hb. destruct w as [|w']; [lia|].
    destruct (length (first :: tl) <? S w')%nat; cbn [ljust app firstn]; eauto. }
  destruct Hhd as [tl' Hhd].
  assert (Hf : firstn w (raw_bytes cmd ++ rest) = raw_bytes cmd).
  { rewrite firstn_app, Hlen, Nat.sub_diag, firstn_O, app_nil_r.
    apply firstn_all2. lia. }
  assert (Hge : (length (raw_bytes cmd ++ rest) <? w)%nat = false).
  { apply Nat.ltb_ge. rewrite length_app. lia. }
  assert (Hdec : decoded o (raw_bytes cmd ++ rest) = cmd).
  { rewrite Hcmd at 2. unfold decoded. rewrite <- Hw, Hge, Hf. f_equal.
    - rewrite Hraw, le_combine_padded. reflexivity.
    - exact Hraw. }
  rewrite <- Hdec at 2. rewrite Hhd. cbn [app].
  apply from_binary_known. exact Hcode.
Qed.

Lemma from_binary_raw_bytes_witness :
  let binary := [Byte.x78; Byte.x10] in
  let cmd := mkCommand READ_MEM [0; 1] [Byte.x78; Byte.x10; Byte.x00] in
  from_binary binary = Return cmd /\
  length (raw_bytes cmd) = declared_width (opcode cmd) /\
  forall rest, from_binary (raw_bytes cmd ++ rest) = Return cmd.
Proof.
  intros binary cmd.
  assert (H : from_binary binary = Return cmd) by reflexivity.
  split; [exact H|]. exact (from_binary_raw_bytes binary cmd H).
Defined.

(** ** The encoder *)

(** X3.  Wherever the encoder returns on in-range operands, the decoder
    gives back the same opcode and operands, and stores the encoding, padded
    with zeros to the declared record width, in [raw_bytes]. *)
Theorem encode_decode_round_trip (cmd : Command) (bs : list byte) :
  operands_in_range cmd = true ->
  to_binary cmd = Return bs ->
  from_binary bs =
  Return (mkCommand (opcode cmd) (args cmd) (ljust bs (declared_width (opcode cmd)))).
Proof.
  intros Hr He.
  destruct (from_binary_to_binary cmd bs Hr He) as [raw Hd].
  rewrite Hd. do 2 f_equal.
  pose proof (to_binary_length cmd bs He) as Hlen.
  apply from_binary_Return in Hd as (_ & _ & _ & _ & Hdec). cbn [opcode] in Hdec.
  apply (f_equal raw_bytes) in Hdec. cbn [raw_bytes decoded] in Hdec. rewrite Hdec.
  set (w := declared_width (opcode cmd)) in *.
  assert (Hle : (length bs <= w)%nat) by (rewrite Hlen; unfold encoded_width; lia).
  destruct (length bs <? w)%nat eqn:E.
  - apply firstn_all2. unfold ljust. rewrite length_app, repeat_length. lia.
  - apply Nat.ltb_ge in E. unfold ljust.
    replace (w - length bs)%nat with 0%nat by lia.
    cbn [repeat]. rewrite app_nil_r. apply firstn_all2. lia.
Qed.

Lemma encode_decode_round_trip_witness :
  let cmd := mkCommand LOAD_CONST [1; 5] [] in
  let bs := [Byte.xac; Byte.x50; Byte.x00; Byte.x00] in
  operands_in_range cmd = true /\ to_binary cmd = Return bs /\
  from_binary bs =
  Return (mkCommand LOAD_CONST [1; 5] [Byte.xac; Byte.x50; Byte.x00; Byte.x00; Byte.x00]).
Proof.
  intros cmd bs.
  assert (Hr : operands_in_range cmd = true) by reflexivity.
  assert (He : to_binary cmd = Return bs) by reflexivity.
  split; [exact Hr|]. split; [exact He|].
  exact (encode_decode_round_trip cmd bs Hr He).
Defined.

Lemma A_capacity_values :
  A_capacity LOAD_CONST = 2 ^ 20 /\ A_capacity READ_MEM = 16 /\
  A_capacity WRITE_MEM = 16 /\ A_capacity SHR = 2 ^ 52.
Proof. repeat split. Qed.

(** X4.  On in-range operands the encoder returns exactly when the second
    operand is below the capacity of its [struct] format (2^20 for
    LOAD_CONST, 16 for READ_MEM and WRITE_MEM, always for SHR); it then
    returns the little-endian bytes of the packed value, 4, 2, 2 and 6 of
    them; otherwise it raises [struct.error]. *)
Theorem to_binary_in_range (cmd : Command) (b a : Z) :
  operands_in_range cmd = true ->
  args cmd = [b; a] ->
  to_binary cmd =
  (if a <? A_capacity (opcode cmd)
   then Return (firstn (declared_width (opcode cmd))
                  (le_split (pack_size (opcode cmd)) (packed_value (opcode cmd) a b)))
   else Raise StructError) /\
  (forall bs, to_binary cmd = Return bs -> length bs = encoded_width (opcode cmd)) /\
  (opcode cmd = SHR -> a < A_capacity SHR).
Proof.
  intros Hr Hargs.
  destruct (operands_in_range_inv cmd Hr) as (b' & a' & Hargs' & Hb & Ha).
  rewrite Hargs in Hargs'. injection Hargs' as <- <-.
  destruct cmd as [o l raw]. cbn [opcode args] in *. subst l.
  split; [|split].
  - rewrite to_binary_args.
    pose proof (Opcode_value_range o) as Hc.
    assert (Hcap : 0 <= 8 * Z.of_nat (pack_size o) - 12) by (destruct o; cbn; lia).
    destruct (a <? A_capacity o) eqn:E.
    + rewrite struct_pack_fits; [reflexivity|].
      pose proof (packed_bounds a b (Opcode_value o) _ Hcap) as B.
      unfold A_capacity in E. fold (packed_value o a b) in B.
      replace (8 * Z.of_nat (pack_size o) - 12 + 12) with (8 * Z.of_nat (pack_size o)) in B by lia.
      apply B; lia.
    + rewrite struct_pack_overflow; [reflexivity|].
      pose proof (packed_value_lower o a b ltac:(lia) Hb) as L.
      unfold A_capacity in E.
      replace (8 * Z.of_nat (pack_size o)) with ((8 * Z.of_nat (pack_size o) - 12) + 12) by lia.
      rewrite Z.pow_add_r by lia. nia.
  - intros bs. apply to_binary_length.
  - intros ->. cbn [A_bits] in Ha. destruct A_capacity_values as (_ & _ & _ & ->). lia.
Qed.

Lemma to_binary_in_range_witness :
  let cmd := mkCommand READ_MEM [0; 16] [] in
  operands_in_range cmd = true /\ to_binary cmd = Raise StructError.
Proof.
  intros cmd.
  assert (Hr : operands_in_range cmd = true) by reflexivity.
  split; [exact Hr|].
  exact (proj1 (to_binary_in_range cmd 0 16 Hr eq_refl)).
Defined.

Lemma field_of_truncated x :
  Z.land (Z.shiftr (x mod 2 ^ 48) 7) 0x1F = Z.land (Z.shiftr x 7) 0x1F /\
  Z.land (Z.shiftr (x mod 2 ^ 48) 12) 0x3FFFFFFF = Z.land (Z.shiftr x 12) 0x3FFFFFFF /\
  Z.land (x mod 2 ^ 48) 0x7F = Z.land x 0x7F.
Proof.
  rewrite <- Z.land_ones by lia.
  rewrite !Z.shiftr_land, <- !Z.land_assoc. auto.
Qed.

(** X5.  The encoder of SHR does not reject an address beyond 30 bits: up to
    2^52 it packs it, and what the decoder finds in the record is the
    address modulo 2^30 (and the register unchanged). *)
Theorem SHR_address_truncated (reg mem_addr : Z) (raw : list byte) :
  0 <= reg < 32 -> 0 <= mem_addr < 2 ^ 52 ->
  exists bs,
    to_binary (mkCommand SHR [reg; mem_addr] raw) = Return bs /\
    length bs = 6%nat /\
    from_binary bs = Return (mkCommand SHR [reg; mem_addr mod 2 ^ 30] bs).
Proof.
  intros Hr Ha.
  set (v := packed_value SHR mem_addr reg).
  pose proof (packed_bounds mem_addr reg (Opcode_value SHR) 52
                ltac:(lia) Ha Hr ltac:(cbn; lia)) as Hv.
  fold (packed_value SHR mem_addr reg) in Hv. fold v in Hv.
  exists (firstn 6 (le_split 8 v)).
  assert (Hlen : length (firstn 6 (le_split 8 v)) = 6%nat)
    by (rewrite length_firstn, length_le_split; lia).
  split; [|split; [exact Hlen|]].
  - rewrite to_binary_args. cbn [pack_size declared_width]. fold v.
    rewrite struct_pack_fits; [reflexivity|]. cbn in *. lia.
  - assert (Hval : le_combine (firstn 6 (firstn 6 (le_split 8 v))) = v mod 2 ^ 48).
    { rewrite !le_combine_firstn, le_combine_split.
      change (8 * Z.of_nat 6) with 48. change (Z.of_nat 8 * 8) with 64.
      rewrite (Z.mod_small v (2 ^ 64)) by (cbn in *; lia).
      apply Z.mod_mod. lia. }
    assert (Hcons : exists rest, firstn 6 (le_split 8 v) = byte.of_Z v :: rest).
    { rewrite le_split_S. cbn [firstn]. eauto. }
    destruct Hcons as [rest Hcons].
    rewrite Hcons at 1.
    erewrite (from_binary_known SHR).
    2:{ rewrite byte_low7. apply packed_code. cbn. lia. }
    rewrite <- Hcons. unfold decoded. cbn [declared_width A_mask].
    rewrite Hval.
    destruct (field_of_truncated v) as (HB & HA & _). rewrite HB, HA.
    subst v. unfold packed_value.
    rewrite packed_B, packed_A by (cbn; lia).
    change 0x3FFFFFFF with (Z.ones 30). rewrite Z.land_ones by lia.
    assert (Hge : (length (firstn 6 (le_split 8 (Z.lor (Z.lor (Z.shiftl mem_addr 12)
                     (Z.shiftl reg 7)) (Opcode_value SHR)))) <? 6)%nat = false)
      by (apply Nat.ltb_ge; unfold packed_value in Hlen; lia).
    rewrite Hge, firstn_firstn. reflexivity.
Qed.

Lemma SHR_address_truncated_witness :
  exists bs,
    to_binary (mkCommand SHR [3; 2 ^ 30 + 5] []) = Return bs /\
    length bs = 6%nat /\
    from_binary bs = Return (mkCommand SHR [3; 5] bs).
Proof.
  destruct (SHR_address_truncated 3 (2 ^ 30 + 5) [] ltac:(lia) ltac:(lia))
    as (bs & He & Hl & Hd).
  exists bs. split; [exact He|]. split; [exact Hl|]. exact Hd.
Defined.

(** X6.  The encoder raises [struct.error] on any negative operand, for
    every opcode: the packed value is then negative. *)
Theorem to_binary_negative_operand (cmd : Command) (b a : Z) :
  args cmd = [b; a] -> a < 0 \/ b < 0 ->
  to_binary cmd = Raise StructError.
Proof.
  intros Hargs Hneg. destruct cmd as [o l raw]. cbn [args] in Hargs. subst l.
  rewrite to_binary_args.
  assert (Hv : packed_value o a b < 0).
  { unfold packed_value. rewrite !Z.lor_neg, !Z.shiftl_neg. tauto. }
  unfold struct_pack.
  destruct (0 <=? packed_value o a b) eqn:E; [lia | reflexivity].
Qed.

Lemma to_binary_negative_operand_witness :
  to_binary (mkCommand LOAD_CONST [1; -5] []) = Raise StructError.
Proof.
  apply (to_binary_negative_operand (mkCommand LOAD_CONST [1; -5] []) 1 (-5) eq_refl).
  left. lia.
Defined.

(** ** The loader *)

Lemma set_program_app_nil self : set_program self (program self ++ []) = self.
Proof. destruct self. unfold set_program. cbn. rewrite app_nil_r. reflexivity. Qed.

(** What the loop appends and how it ends depend on the bytes and the offset
    only, not on the machine. *)
Lemma load_loop_pure fuel : forall data i,
  (length data <= i + fuel)%nat ->
  exists o cmds, forall self,
    load_loop fuel data i self = Some (o, set_program self (program self ++ cmds)).
Proof.
  induction fuel as [|fuel IH]; intros data i Hf.
  - exists (Return tt), []. intros self.
    rewrite load_loop_done by lia. rewrite set_program_app_nil. reflexivity.
  - destruct (data !! i) as [b|] eqn:Hb.
    + destruct (opcode_val_dec (opcode_val_of b)) as [[o Ho]|Hu].
      * pose proof (declared_width_pos o).
        destruct (IH data (i + declared_width o)%nat ltac:(lia)) as (r & cmds & Hl).
        exists r, (decoded o (record data i (declared_width o)) :: cmds). intros self.
        rewrite (load_loop_known _ _ _ _ b o Hb Ho), Hl. cbn.
        rewrite <- app_assoc. reflexivity.
      * exists (Raise ValueError), []. intros self.
        rewrite (load_loop_unknown _ _ _ _ b Hb Hu), set_program_app_nil. reflexivity.
    + apply lookup_ge_None in Hb.
      exists (Return tt), []. intros self.
      rewrite load_loop_done by lia. rewrite set_program_app_nil. reflexivity.
Qed.

(** Any two amounts of fuel that cover the remaining bytes give the same
    result. *)
Lemma load_loop_fuel fuel : forall fuel' data i self,
  (length data <= i + fuel)%nat -> (length data <= i + fuel')%nat ->
  load_loop fuel data i self = load_loop fuel' data i self.
Proof.
  induction fuel as [|fuel IH]; intros fuel' data i self Hf Hf'.
  - rewrite !load_loop_done by lia. reflexivity.
  - destruct (data !! i) as [b|] eqn:Hb.
    + pose proof (lookup_lt_Some _ _ _ Hb) as Hlt.
      destruct fuel' as [|fuel']; [lia|].
      destruct (opcode_val_dec (opcode_val_of b)) as [[o Ho]|Hu].
      * pose proof (declared_width_pos o).
        rewrite !(load_loop_known _ _ _ _ b o Hb Ho). apply IH; lia.
      * rewrite !(load_loop_unknown _ _ _ _ b Hb Hu). reflexivity.
    + apply lookup_ge_None in Hb. rewrite !load_loop_done by lia. reflexivity.
Qed.

(** X7.  [load_program] neither reads nor changes registers, memory or the
    program counter, and the program it leaves does not depend on the
    machine it is called on: the previous program is discarded, not
    extended. *)
Theorem load_program_independent (data : list byte) :
  exists o cmds, forall self,
    load_program data self = Some (o, set_program self cmds) /\
    registers (set_program self cmds) = registers self /\
    data_memory (set_program self cmds) = data_memory self /\
    pc (set_program self cmds) = pc self /\
    program (set_program self cmds) = cmds.
Proof.
  destruct (load_loop_pure (length data) data 0 ltac:(lia)) as (o & cmds & H).
  exists o, cmds. intros self. unfold load_program. rewrite H.
  cbn. auto.
Qed.

Lemma load_loop_Raise_scan fuel : forall data i self e self',
  load_loop fuel data i self = Some (Raise e, self') ->
  exists k, scan data i k /\
            exists b, data !! k = Some b /\ unrecognized (opcode_val_of b).
Proof.
  induction fuel as [|fuel IH]; intros data i self e self' H.
  - cbn [load_loop] in H. destruct (length data <=? i)%nat; discriminate.
  - destruct (data !! i) as [b|] eqn:Hb.
    + destruct (opcode_val_dec (opcode_val_of b)) as [[o Ho]|Hu].
      * rewrite (load_loop_known _ _ _ _ b o Hb Ho) in H.
        apply IH in H as (k & Hs & Hk).
        exists k. split; [|exact Hk]. eapply scan_next; eassumption.
      * exists i. split; [apply scan_here | eauto].
    + apply lookup_ge_None in Hb. rewrite load_loop_done in H by lia. discriminate.
Qed.

(** X8.  [load_program] fails exactly when the stream has an unrecognized
    opcode code at a record boundary; a stream that ends in the middle of a
    record is no failure. *)
Theorem load_program_raises_iff (data : list byte) (self : VirtualMachine) :
  (exists self', load_program data self = Some (Raise ValueError, self')) <->
  (exists k, bad_record_at data k).
Proof.
  split.
  - intros [self' H]. unfold load_program in H.
    apply load_loop_Raise_scan in H as (k & Hs & Hk).
    exists k. split; assumption.
  - intros (k & Hs & Hk). unfold load_program.
    destruct (load_loop_bad data 0 k Hs Hk (length data) k (set_program self []))
      as (cmds & H & _); [lia | lia |].
    eexists. exact H.
Qed.

Lemma declared_width_max o : (declared_width o <= 6)%nat.
Proof. destruct o; simpl; lia. Qed.

Lemma load_loop_count fuel : forall data i self self',
  load_loop fuel data i self = Some (Return tt, self') ->
  exists cmds,
    program self' = program self ++ cmds /\
    (length data <= i + 6 * length cmds)%nat /\
    (i < length data -> 3 * length cmds + i <= length data + 2)%nat /\
    (length data <= i -> cmds = [])%nat.
Proof.
  induction fuel as [|fuel IH]; intros data i self self' H.
  - cbn [load_loop] in H.
    destruct (length data <=? i)%nat eqn:E; [|discriminate].
    apply Nat.leb_le in E. injection H as <-.
    exists []. rewrite app_nil_r. cbn. repeat split; auto; lia.
  - destruct (data !! i) as [b|] eqn:Hb.
    + pose proof (lookup_lt_Some _ _ _ Hb) as Hlt.
      destruct (opcode_val_dec (opcode_val_of b)) as [[o Ho]|Hu].
      * rewrite (load_loop_known _ _ _ _ b o Hb Ho) in H.
        apply IH in H as (cmds & Hp & H6 & H3 & H0).
        pose proof (declared_width_pos o). pose proof (declared_width_max o).
        exists (decoded o (record data i (declared_width o)) :: cmds).
        cbn [program set_program] in Hp. rewrite <- app_assoc in Hp.
        split; [exact Hp|]. cbn [length].
        split; [lia|]. split; [|lia].
        intros _.
        destruct (Nat.lt_ge_cases (i + declared_width o) (length data)) as [Hl|Hg].
        -- specialize (H3 Hl). lia.
        -- rewrite (H0 Hg). cbn. lia.
      * rewrite (load_loop_unknown _ _ _ _ b Hb Hu) in H. discriminate.
    + apply lookup_ge_None in Hb. rewrite load_loop_done in H by lia.
      injection H as <-. exists []. rewrite app_nil_r. cbn. repeat split; auto; lia.
Qed.

(** X9.  A loaded program has between a sixth and a third as many commands
    as the stream has bytes: every record takes 3 to 6 bytes, and only the
    last one may be cut short. *)
Theorem load_program_length (data : list byte) (self loaded : VirtualMachine) :
  load_program data self = Some (Return tt, loaded) ->
  (length data <= 6 * length (program loaded))%nat /\
  (3 * length (program loaded) <= length data + 2)%nat.
Proof.
  unfold load_program. intros H.
  apply load_loop_count in H as (cmds & Hp & H6 & H3 & H0).
  cbn in Hp. subst cmds. split; [lia|].
  destruct data as [|b data].
  - rewrite H0 by (cbn; lia). cbn. lia.
  - cbn [length] in *. lia.
Qed.

Lemma load_program_length_witness :
  exists loaded,
    load_program two_loads (init 4) = Some (Return tt, loaded) /\
    (length two_loads <= 6 * length (program loaded))%nat /\
    (3 * length (program loaded) <= length two_loads + 2)%nat.
Proof.
  eexists.
  assert (H : load_program two_loads (init 4) =
              Some (Return tt, set_program (init 4)
                [mkCommand LOAD_CONST [1; 5] [Byte.xac; Byte.x50; Byte.x00; Byte.x00; Byte.x00];
                 mkCommand LOAD_CONST [2; 7] [Byte.x2c; Byte.x71; Byte.x00; Byte.x00; Byte.x00]]))
    by reflexivity.
  split; [exact H|]. exact (load_program_length _ _ _ H).
Defined.

(** *** Streams put together *)

Lemma record_app_l data1 data2 i w :
  (i + w <= length data1)%nat -> record (data1 ++ data2) i w = record data1 i w.
Proof.
  intros H. unfold record.
  rewrite skipn_app, firstn_app, length_skipn.
  replace (w - (length data1 - i))%nat with 0%nat by lia.
  rewrite firstn_O, app_nil_r. reflexivity.
Qed.

(** Behind a prefix, the loop runs as on the rest alone. *)
Lemma load_loop_shift fuel : forall pre data i self,
  load_loop fuel (pre ++ data) (length pre + i) self = load_loop fuel data i self.
Proof.
  induction fuel as [|fuel IH]; intros pre data i self; cbn [load_loop];
    rewrite length_app;
    replace (length pre + length data <=? length pre + i)%nat
      with (length data <=? i)%nat
      by (destruct (length data <=? i)%nat eqn:E; symmetry;
          [apply Nat.leb_le; apply Nat.leb_le in E | apply Nat.leb_gt; apply Nat.leb_gt in E];
          lia);
    [reflexivity|].
  destruct (length data <=? i)%nat; [reflexivity|].
  rewrite lookup_app_r by lia.
  replace (length pre + i - length pre)%nat with i by lia.
  destruct (data !! i) as [b|]; [|reflexivity].
  destruct (cmd_len_of _) as [cmd_len|e]; [|reflexivity].
  assert (Hd : skipn (length pre + i) (pre ++ data) = skipn i data).
  { rewrite skipn_app, skipn_all2 by lia.
    replace (length pre + i - length pre)%nat with i by lia. reflexivity. }
  rewrite Hd.
  destruct (from_binary _) as [cmd|e]; [|reflexivity].
  rewrite <- Nat.add_assoc. apply IH.
Qed.

(** Whole records at the front of a stream are loaded as they are alone, and
    the loop goes on behind them. *)
Lemma load_loop_prefix data1 data2 i k :
  scan data1 i k -> k = length data1 ->
  exists cmds1, forall fuel self,
    (length (data1 ++ data2) <= i + fuel)%nat ->
    load_loop fuel data1 i self =
      Some (Return tt, set_program self (program self ++ cmds1)) /\
    load_loop fuel (data1 ++ data2) i self =
      load_loop fuel (data1 ++ data2) (length data1)
        (set_program self (program self ++ cmds1)).
Proof.
  induction 1 as [i | i b o k Hb Ho Hscan IH]; intros Hk.
  - exists []. intros fuel self Hf. subst i.
    rewrite load_loop_done by lia. rewrite set_program_app_nil. auto.
  - destruct (IH Hk) as (cmds & Hc). clear IH.
    pose proof (scan_le _ _ _ Hscan) as Hle.
    pose proof (declared_width_pos o) as Hw.
    pose proof (lookup_lt_Some _ _ _ Hb) as Hlt.
    exists (decoded o (record data1 i (declared_width o)) :: cmds).
    intros fuel self Hf. rewrite length_app in Hf.
    destruct fuel as [|fuel]; [lia|].
    rewrite (load_loop_known _ _ _ _ b o Hb Ho).
    rewrite (load_loop_known _ (data1 ++ data2) _ _ b o); [| |exact Ho].
    2:{ rewrite lookup_app_l by lia. exact Hb. }
    rewrite record_app_l by lia.
    set (self1 := set_program self (program self ++
                    [decoded o (record data1 i (declared_width o))])).
    destruct (Hc fuel self1) as [H1 H2]; [rewrite length_app; lia|].
    rewrite H1, H2.
    assert (Hs : set_program self1 (program self1 ++ cmds) =
                 set_program self (program self ++
                   decoded o (record data1 i (declared_width o)) :: cmds)).
    { subst self1. cbn. rewrite <- app_assoc. reflexivity. }
    rewrite Hs. split; [reflexivity|].
    apply load_loop_fuel; rewrite length_app; lia.
Qed.

(** X10.  Loading composes over whole records: when the first part of a
    stream ends at a record boundary, loading the whole stream gives the
    program of the first part followed by the program of the rest, and ends
    as loading the rest ends. *)
Theorem load_program_app (data1 data2 : list byte) (self : VirtualMachine) :
  scan data1 0 (length data1) ->
  exists cmds1 o cmds2,
    load_program data1 self = Some (Return tt, set_program self cmds1) /\
    load_program data2 self = Some (o, set_program self cmds2) /\
    load_program (data1 ++ data2) self = Some (o, set_program self (cmds1 ++ cmds2)).
Proof.
  intros Hscan.
  destruct (load_loop_prefix data1 data2 0 _ Hscan eq_refl) as (cmds1 & H1).
  destruct (load_loop_pure (length data2) data2 0 ltac:(lia)) as (o & cmds2 & H2).
  exists cmds1, o, cmds2. unfold load_program.
  destruct (H1 (length (data1 ++ data2)) (set_program self []) ltac:(lia)) as [Ha Hb].
  split; [|split].
  - rewrite (load_loop_fuel _ (length (data1 ++ data2))) by (rewrite ?length_app; lia).
    rewrite Ha. reflexivity.
  - rewrite H2. reflexivity.
  - rewrite Hb.
    pose proof (load_loop_shift (length (data1 ++ data2)) data1 data2 0
                  (set_program (set_program self []) (program (set_program self []) ++ cmds1)))
      as Hsh.
    rewrite Nat.add_0_r in Hsh. rewrite Hsh.
    rewrite (load_loop_fuel _ (length data2)) by (rewrite ?length_app; lia).
    rewrite H2. reflexivity.
Qed.

Lemma load_program_app_witness :
  exists cmds1 o cmds2,
    load_program two_loads (init 4) = Some (Return tt, set_program (init 4) cmds1) /\
    load_program read_0_1 (init 4) = Some (o, set_program (init 4) cmds2) /\
    load_program (two_loads ++ read_0_1) (init 4)
      = Some (o, set_program (init 4) (cmds1 ++ cmds2)).
Proof.
  apply (load_program_app two_loads read_0_1 (init 4)).
  eapply (scan_next _ 0 Byte.xac LOAD_CONST); [reflexivity | reflexivity |].
  eapply (scan_next _ 5 Byte.x2c LOAD_CONST); [reflexivity | reflexivity |].
  apply scan_here.
Defined.

(** *** A stream that ends inside a record *)

Lemma ljust_full (bs : list byte) (w : nat) :
  (w <= length bs)%nat -> ljust bs w = bs.
Proof.
  intros H. unfold ljust. replace (w - length bs)%nat with 0%nat by lia.
  apply app_nil_r.
Qed.

Lemma ljust_length (bs : list byte) (w : nat) :
  (length bs <= w)%nat -> length (ljust bs w) = w.
Proof. intros H. unfold ljust. rewrite length_app, repeat_length. lia. Qed.

Lemma record_whole tail w :
  (length tail <= w)%nat -> record tail 0 w = ljust tail w.
Proof.
  intros H. unfold record. change (skipn 0 tail) with tail.
  rewrite (firstn_all2 tail) by lia.
  destruct (length tail <? w)%nat eqn:E; [reflexivity|].
  apply Nat.ltb_ge in E. symmetry. apply ljust_full. exact E.
Qed.

(** A stream that is one record, complete or cut short. *)
Lemma load_loop_single tail b t o :
  tail = b :: t ->
  opcode_val_of b = Opcode_value o ->
  (length tail <= declared_width o)%nat ->
  forall fuel self, (length tail <= fuel)%nat ->
    load_loop fuel tail 0 self =
    Some (Return tt,
          set_program self (program self ++ [decoded o (ljust tail (declared_width o))])).
Proof.
  intros Ht Ho Hlen fuel self Hf.
  destruct fuel as [|fuel]; [subst tail; cbn in Hf; lia|].
  rewrite (load_loop_known _ _ _ _ b o) by (subst tail; auto).
  rewrite load_loop_done by (cbn; lia).
  rewrite record_whole by exact Hlen. reflexivity.
Qed.

(** X11.  A stream that ends in the middle of its last record is loaded as
    if that record were completed with zero bytes: the cut record is not
    dropped, its command is what the decoder makes of the padded bytes, and
    the load succeeds. *)
Theorem load_program_pads_last_record
  (data1 tail : list byte) (b : byte) (t : list byte) (o : Opcode)
  (self : VirtualMachine) :
  scan data1 0 (length data1) ->
  tail = b :: t ->
  opcode_val_of b = Opcode_value o ->
  (length tail <= declared_width o)%nat ->
  exists cmds1 last,
    load_program data1 self = Some (Return tt, set_program self cmds1) /\
    from_binary (ljust tail (declared_width o)) = Return last /\
    opcode last = o /\
    load_program (data1 ++ tail) self
      = Some (Return tt, set_program self (cmds1 ++ [last])) /\
    load_program (data1 ++ ljust tail (declared_width o)) self
      = load_program (data1 ++ tail) self.
Proof.
  intros Hscan Ht Ho Hlen.
  set (w := declared_width o) in *.
  set (padded := ljust tail w).
  assert (Hp : padded = b :: (t ++ repeat Byte.x00 (w - length tail))).
  { unfold padded, ljust. rewrite Ht. reflexivity. }
  assert (Hplen : length padded = w) by (apply ljust_length; exact Hlen).
  assert (Hfull : ljust padded w = padded) by (apply ljust_full; lia).
  assert (Hload : forall rest t', rest = b :: t' -> (length rest <= w)%nat ->
            ljust rest w = padded ->
            exists cmds1,
              load_program data1 self = Some (Return tt, set_program self cmds1) /\
              load_program (data1 ++ rest) self
              = Some (Return tt, set_program self (cmds1 ++ [decoded o padded]))).
  { intros rest t' Hr Hrl Hrp.
    destruct (load_loop_prefix data1 rest 0 _ Hscan eq_refl) as (cmds1 & H1).
    exists cmds1. unfold load_program.
    destruct (H1 (length (data1 ++ rest)) (set_program self []) ltac:(lia)) as [Ha Hb].
    split.
    - rewrite (load_loop_fuel _ (length (data1 ++ rest))) by (rewrite ?length_app; lia).
      rewrite Ha. reflexivity.
    - rewrite Hb.
      pose proof (load_loop_shift (length (data1 ++ rest)) data1 rest 0
                    (set_program (set_program self [])
                       (program (set_program self []) ++ cmds1))) as Hsh.
      rewrite Nat.add_0_r in Hsh. rewrite Hsh.
      rewrite (load_loop_single rest b t' o Hr Ho Hrl) by (rewrite length_app; lia).
      fold w. rewrite Hrp. reflexivity. }
  destruct (Hload tail t Ht Hlen eq_refl) as (cmds1 & H1 & H2).
  destruct (Hload padded _ Hp ltac:(lia) Hfull) as (cmds1' & H1' & H2').
  rewrite H1 in H1'. injection H1' as E. subst cmds1'.
  exists cmds1, (decoded o padded).
  split; [exact H1|]. split.
  - rewrite Hp. apply from_binary_known. exact Ho.
  - split; [reflexivity|]. split; [exact H2|]. rewrite H2', H2. reflexivity.
Qed.

Lemma load_program_pads_last_record_witness :
  exists cmds1 last,
    load_program two_loads (init 4) = Some (Return tt, set_program (init 4) cmds1) /\
    from_binary (ljust [Byte.x78; Byte.x10] 3) = Return last /\
    opcode last = READ_MEM /\
    load_program (two_loads ++ [Byte.x78; Byte.x10]) (init 4)
      = Some (Return tt, set_program (init 4) (cmds1 ++ [last])) /\
    load_program (two_loads ++ ljust [Byte.x78; Byte.x10] 3) (init 4)
      = load_program (two_loads ++ [Byte.x78; Byte.x10]) (init 4).
Proof.
  apply (load_program_pads_last_record two_loads [Byte.x78; Byte.x10]
           Byte.x78 [Byte.x10] READ_MEM (init 4)).
  - eapply (scan_next _ 0 Byte.xac LOAD_CONST); [reflexivity | reflexivity |].
    eapply (scan_next _ 5 Byte.x2c LOAD_CONST); [reflexivity | reflexivity |].
    apply scan_here.
  - reflexivity.
  - reflexivity.
  - cbn. lia.
Defined.

(** ** Commands *)

Lemma setitem_ok {A : Type} (l : list A) (i : Z) (x : A) :
  subscript_ok (length l) i = true -> exists l', setitem l i x = Return l'.
Proof.
  intros H. destruct (py_index_ok _ _ H) as (k & Hk & _).
  unfold setitem. rewrite Hk. cbn [obind]. eauto.
Qed.

Lemma getitem_setitem_same {A : Type} (l l' : list A) (i : Z) (x : A) :
  setitem l i x = Return l' ->
  getitem l' i = Return x /\ length l' = length l.
Proof.
  intros H. apply setitem_Return in H as (k & Hk & ->).
  rewrite length_insert. split; [|reflexivity].
  unfold getitem. rewrite length_insert, Hk. cbn [obind].
  assert (Hlt : (k < length l)%nat).
  { unfold py_index in Hk.
    destruct ((i <? - Z.of_nat (length l)) || (Z.of_nat (length l) <=? i)) eqn:E;
      [discriminate|].
    injection Hk as <-. apply orb_false_iff in E as [E1 E2].
    destruct (i <? 0) eqn:E3; lia. }
  rewrite list_lookup_insert_eq by exact Hlt. reflexivity.
Qed.

(** A command with two operands whose subscripts the lists accept completes,
    unless it is a SHR whose shift amount is negative. *)
Lemma execute_command_progress self cmd x y :
  args cmd = [x; y] ->
  some_reference_fails subscript_ok self cmd = false ->
  (opcode cmd = SHR -> forall s, getitem (data_memory self) y = Return s -> 0 <= s) ->
  exists self', execute_command cmd self = (Return tt, self').
Proof.
  unfold some_reference_fails, references, execute_command. intros -> H Hs.
  destruct (opcode cmd); cbn [existsb fst snd] in H; run_vm.
  - (* LOAD_CONST *)
    rewrite orb_false_r in H. apply negb_false_iff in H.
    destruct (setitem_ok (registers self) x y H) as [l' ->]. eauto.
  - (* READ_MEM *)
    apply orb_false_iff in H as [Hx H]. apply orb_false_iff in H as [Hy H].
    apply negb_false_iff in Hx, Hy.
    destruct (getitem_ok _ _ Hx) as (k & a & _ & _ & Hg). rewrite Hg in *.
    cbn [existsb fst snd] in H. rewrite orb_false_r in H. apply negb_false_iff in H.
    destruct (getitem_ok _ _ H) as (k' & v & _ & _ & Hg'). rewrite Hg'.
    destruct (setitem_ok (registers self) y v Hy) as [l' ->]. eauto.
  - (* WRITE_MEM *)
    apply orb_false_iff in H as [Hy H]. apply orb_false_iff in H as [Hx H].
    apply negb_false_iff in Hx, Hy.
    destruct (getitem_ok _ _ Hy) as (k & a & _ & _ & Hg). rewrite Hg in *.
    cbn [existsb fst snd] in H. rewrite orb_false_r in H. apply negb_false_iff in H.
    destruct (getitem_ok _ _ Hx) as (k' & v & _ & _ & Hg'). rewrite Hg'.
    destruct (setitem_ok (data_memory self) a v H) as [l' ->]. eauto.
  - (* SHR *)
    apply orb_false_iff in H as [Hy H]. rewrite orb_false_r in H.
    apply negb_false_iff in Hy, H.
    destruct (getitem_ok _ _ Hy) as (k & s & _ & _ & Hg). rewrite Hg.
    destruct (getitem_ok _ _ H) as (k' & r & _ & _ & Hg'). rewrite Hg'.
    specialize (Hs eq_refl s Hg).
    destruct (s <? 0) eqn:E; [lia|].
    destruct (setitem_ok (registers self) x (Z.shiftr r s) H) as [l' ->]. eauto.
Qed.

(** X12.  A command with two operands completes exactly when the lists
    accept every subscript it evaluates and, for SHR, the shift amount read
    from memory is not negative. *)
Theorem execute_command_completes_iff (self : VirtualMachine) (cmd : Command) (x y : Z) :
  args cmd = [x; y] ->
  ((exists self', execute_command cmd self = (Return tt, self')) <->
   (some_reference_fails subscript_ok self cmd = false /\
    (opcode cmd = SHR ->
     forall s, getitem (data_memory self) y = Return s -> 0 <= s))).
Proof.
  intros Hargs. split.
  - intros [self' H]. split.
    + destruct (some_reference_fails subscript_ok self cmd) eqn:E; [|reflexivity].
      rewrite (execute_command_oob cmd self E) in H. discriminate.
    + intros Ho s Hs.
      destruct (Z.lt_ge_cases s 0) as [Hneg|]; [|assumption].
      revert H. unfold execute_command. rewrite Ho, Hargs. run_vm. rewrite Hs.
      destruct (getitem (registers self) x); [|discriminate].
      destruct (s <? 0) eqn:E; [discriminate | lia].
  - intros [H Hs]. eapply execute_command_progress; eassumption.
Qed.

Lemma execute_command_completes_iff_witness :
  let self := mkVM [8; 0] [-1; 3] [] 0 in
  (exists self', execute_command (mkCommand SHR [0; 1] []) self = (Return tt, self')) /\
  ~ (exists self', execute_command (mkCommand SHR [0; 0] []) self = (Return tt, self')).
Proof.
  intros self. split.
  - apply (execute_command_completes_iff self (mkCommand SHR [0; 1] []) 0 1 eq_refl).
    split; [reflexivity|]. intros _ s [= <-]. lia.
  - intros H.
    apply (execute_command_completes_iff self (mkCommand SHR [0; 0] []) 0 0 eq_refl) in H.
    destruct H as [_ H]. specialize (H eq_refl (-1) eq_refl). lia.
Defined.

(** X13.  Store then load: after a WRITE_MEM through the address register
    [addr_reg] completed, a READ_MEM through the same register into any
    register the list accepts completes and delivers the value that was
    stored. *)
Theorem WRITE_MEM_then_READ_MEM
  (self self1 : VirtualMachine) (src_reg addr_reg dst_reg : Z) (raw raw' : list byte) :
  execute_command (mkCommand WRITE_MEM [src_reg; addr_reg] raw) self = (Return tt, self1) ->
  subscript_ok (length (registers self)) dst_reg = true ->
  exists v self2,
    getitem (registers self) src_reg = Return v /\
    execute_command (mkCommand READ_MEM [addr_reg; dst_reg] raw') self1 = (Return tt, self2) /\
    getitem (registers self2) dst_reg = Return v /\
    data_memory self2 = data_memory self1.
Proof.
  unfold execute_command. cbn [opcode args]. run_vm. intros H Hd.
  destruct (getitem (registers self) addr_reg) as [a|] eqn:Ha; [|discriminate].
  destruct (getitem (registers self) src_reg) as [v|] eqn:Hv; [|discriminate].
  destruct (setitem (data_memory self) a v) as [mem'|] eqn:Hm; [|discriminate].
  injection H as <-. cbn [registers data_memory set_data_memory].
  exists v. rewrite Ha.
  destruct (getitem_setitem_same _ _ _ _ Hm) as [Hg _]. rewrite Hg.
  destruct (setitem_ok (registers self) dst_reg v Hd) as [regs' Hs]. rewrite Hs.
  eexists. split; [reflexivity|]. split; [reflexivity|]. cbn.
  split; [|reflexivity].
  apply (getitem_setitem_same _ _ _ _ Hs).
Qed.

Lemma WRITE_MEM_then_READ_MEM_witness :
  let self := mkVM [42; 2; 0] [0; 0; 0; 0] [] 0 in
  exists v self2,
    getitem (registers self) 0 = Return v /\
    execute_command (mkCommand READ_MEM [1; 2] [])
      (set_data_memory self [0; 0; 42; 0]) = (Return tt, self2) /\
    getitem (registers self2) 2 = Return v /\
    data_memory self2 = data_memory (set_data_memory self [0; 0; 42; 0]).
Proof.
  intros self.
  apply (WRITE_MEM_then_READ_MEM self (set_data_memory self [0; 0; 42; 0]) 0 1 2 [] []);
    reflexivity.
Defined.

(** X14.  LOAD_CONST on a register inside the register file stores the
    constant there, whatever its size or sign, and changes nothing else. *)
Theorem LOAD_CONST_in_bounds (self : VirtualMachine) (reg const : Z) (raw : list byte) :
  0 <= reg < Z.of_nat (length (registers self)) ->
  exists regs',
    execute_command (mkCommand LOAD_CONST [reg; const] raw) self
      = (Return tt, set_registers self regs') /\
    regs' !! Z.to_nat reg = Some const /\
    (forall j, j <> Z.to_nat reg -> regs' !! j = registers self !! j) /\
    length regs' = length (registers self).
Proof.
  intros Hreg. exists (<[Z.to_nat reg := const]> (registers self)).
  split; [|split; [|split]].
  - unfold execute_command. cbn [opcode args]. run_vm.
    rewrite setitem_nonneg by exact Hreg. reflexivity.
  - apply list_lookup_insert_eq. lia.
  - intros j Hj. apply list_lookup_insert_ne. congruence.
  - apply length_insert.
Qed.

Lemma LOAD_CONST_in_bounds_witness :
  exists regs',
    execute_command (mkCommand LOAD_CONST [1; 5] []) (init 4)
      = (Return tt, set_registers (init 4) regs') /\
    regs' !! 1%nat = Some 5.
Proof.
  destruct (LOAD_CONST_in_bounds (init 4) 1 5 [] ltac:(cbn; lia))
    as (regs' & He & Hr & _).
  exists regs'. split; [exact He | exact Hr].
Defined.

(** X15.  READ_MEM with its registers and the address inside the arrays:
    the destination register receives the memory cell whose address the
    source register holds; other registers and the memory are unchanged. *)
Theorem READ_MEM_in_bounds
  (self : VirtualMachine) (src_reg dst_reg mem_addr v : Z) (raw : list byte) :
  0 <= src_reg -> registers self !! Z.to_nat src_reg = Some mem_addr ->
  0 <= mem_addr -> data_memory self !! Z.to_nat mem_addr = Some v ->
  0 <= dst_reg < Z.of_nat (length (registers self)) ->
  exists regs',
    execute_command (mkCommand READ_MEM [src_reg; dst_reg] raw) self
      = (Return tt, set_registers self regs') /\
    regs' !! Z.to_nat dst_reg = Some v /\
    (forall j, j <> Z.to_nat dst_reg -> regs' !! j = registers self !! j) /\
    data_memory (set_registers self regs') = data_memory self.
Proof.
  intros Hs Hsrc Ha Hv Hd. exists (<[Z.to_nat dst_reg := v]> (registers self)).
  split; [|split; [|split]].
  - unfold execute_command. cbn [opcode args]. run_vm.
    rewrite (getitem_nonneg _ _ _ Hs Hsrc), (getitem_nonneg _ _ _ Ha Hv).
    rewrite setitem_nonneg by exact Hd. reflexivity.
  - apply list_lookup_insert_eq. lia.
  - intros j Hj. apply list_lookup_insert_ne. congruence.
  - reflexivity.
Qed.

Lemma READ_MEM_in_bounds_witness :
  let self := mkVM [0; 0; 2; 0] [10; 20; 30] [] 0 in
  exists regs',
    execute_command (mkCommand READ_MEM [2; 3] []) self
      = (Return tt, set_registers self regs') /\
    regs' !! 3%nat = Some 30.
Proof.
  intros self.
  destruct (READ_MEM_in_bounds self 2 3 2 30 []
              ltac:(lia) eq_refl ltac:(lia) eq_refl ltac:(cbn; lia))
    as (regs' & He & Hr & _).
  exists regs'. split; [exact He | exact Hr].
Defined.

(** X16.  WRITE_MEM with its registers and the address inside the arrays:
    the memory cell whose address the address register holds receives the
    value of the source register; other cells and all registers are
    unchanged. *)
Theorem WRITE_MEM_in_bounds
  (self : VirtualMachine) (src_reg addr_reg mem_addr v : Z) (raw : list byte) :
  0 <= addr_reg -> registers self !! Z.to_nat addr_reg = Some mem_addr ->
  0 <= src_reg -> registers self !! Z.to_nat src_reg = Some v ->
  0 <= mem_addr < Z.of_nat (length (data_memory self)) ->
  exists mem',
    execute_command (mkCommand WRITE_MEM [src_reg; addr_reg] raw) self
      = (Return tt, set_data_memory self mem') /\
    mem' !! Z.to_nat mem_addr = Some v /\
    (forall j, j <> Z.to_nat mem_addr -> mem' !! j = data_memory self !! j) /\
    length mem' = length (data_memory self) /\
    registers (set_data_memory self mem') = registers self.
Proof.
  intros Ha Haddr Hs Hsrc Hm. exists (<[Z.to_nat mem_addr := v]> (data_memory self)).
  split; [|split; [|split; [|split]]].
  - unfold execute_command. cbn [opcode args]. run_vm.
    rewrite (getitem_nonneg _ _ _ Ha Haddr), (getitem_nonneg _ _ _ Hs Hsrc).
    rewrite setitem_nonneg by exact Hm. reflexivity.
  - apply list_lookup_insert_eq. lia.
  - intros j Hj. apply list_lookup_insert_ne. congruence.
  - apply length_insert.
  - reflexivity.
Qed.

Lemma WRITE_MEM_in_bounds_witness :
  let self := mkVM [42; 2; 0] [0; 0; 0; 0] [] 0 in
  exists mem',
    execute_command (mkCommand WRITE_MEM [0; 1] []) self
      = (Return tt, set_data_memory self mem') /\
    mem' !! 2%nat = Some 42.
Proof.
  intros self.
  destruct (WRITE_MEM_in_bounds self 0 1 2 42 []
              ltac:(lia) eq_refl ltac:(lia) eq_refl ltac:(cbn; lia))
    as (mem' & He & Hr & _).
  exists mem'. split; [exact He | exact Hr].
Defined.

(** X17.  On a machine with 32 registers and no negative value, a command
    with operands in range (every command of a loaded program) can only fail
    with [IndexError], leaving the machine unchanged, and only because the
    memory address it uses is not below the size of the memory. *)
Theorem loaded_command_fails_on_memory_only
  (self self' : VirtualMachine) (cmd : Command) (e : exn) :
  operands_in_range cmd = true ->
  values_nonneg self ->
  length (registers self) = 32%nat ->
  execute_command cmd self = (Raise e, self') ->
  e = IndexError /\ self' = self /\ opcode cmd <> LOAD_CONST /\
  exists mem_addr,
    In (length (data_memory self), mem_addr) (references self cmd) /\
    Z.of_nat (length (data_memory self)) <= mem_addr.
Proof.
  intros Hr Hv Hregs Hex.
  destruct (operands_in_range_inv cmd Hr) as (b & a & Hargs & Hb & Ha).
  pose proof (references_nonneg self cmd Hv Hr) as Hnn.
  assert (Hfail : some_reference_fails subscript_ok self cmd = true).
  { destruct (some_reference_fails subscript_ok self cmd) eqn:E; [reflexivity|].
    destruct (execute_command_progress self cmd b a Hargs E) as [s Hs];
      [|rewrite Hs in Hex; discriminate].
    intros _ s Hs. destruct Hv as [_ Hm].
    eapply (getitem_Forall (fun v => 0 <= v)); eassumption. }
  pose proof (execute_command_oob cmd self Hfail) as Hoob.
  rewrite Hoob in Hex. injection Hex as <- <-.
  split; [reflexivity|]. split; [reflexivity|].
  assert (Hreg : forall r, 0 <= r < 32 ->
            negb (subscript_ok (length (registers self)) r) = false).
  { intros r Hr'. rewrite Hregs. unfold subscript_ok. apply negb_false_iff.
    apply andb_true_intro. split; [apply Z.leb_le | apply Z.ltb_lt]; lia. }
  assert (Hmem : forall m, 0 <= m ->
            negb (subscript_ok (length (data_memory self)) m) = true ->
            Z.of_nat (length (data_memory self)) <= m).
  { intros m Hm0 Hm. apply negb_true_iff in Hm. unfold subscript_ok in Hm.
    apply andb_false_iff in Hm as [Hm|Hm];
      [apply Z.leb_gt in Hm | apply Z.ltb_ge in Hm]; lia. }
  revert Hfail Hnn. unfold some_reference_fails, references. rewrite Hargs.
  assert (Hbits : 0 <= a < 32 \/ opcode cmd = LOAD_CONST \/ opcode cmd = SHR).
  { destruct (opcode cmd); cbn [A_bits] in Ha; auto; left; lia. }
  destruct (opcode cmd) eqn:Ho; cbn [existsb fst snd]; intros Hfail Hnn.
  - rewrite (Hreg b Hb) in Hfail. discriminate.
  - destruct Hbits as [Ha'|[|]]; try discriminate.
    rewrite (Hreg b Hb), (Hreg a Ha') in Hfail. cbn [orb] in Hfail.
    destruct (getitem (registers self) b) as [m|]; [|discriminate].
    cbn [existsb fst snd] in Hfail. rewrite orb_false_r in Hfail.
    split; [discriminate|]. exists m. split; [cbn; auto|].
    apply Hmem; [|exact Hfail].
    apply Forall_cons in Hnn as [_ Hnn]. apply Forall_cons in Hnn as [_ Hnn].
    apply Forall_cons in Hnn as [Hm _]. exact Hm.
  - destruct Hbits as [Ha'|[|]]; try discriminate.
    rewrite (Hreg b Hb), (Hreg a Ha') in Hfail. cbn [orb] in Hfail.
    destruct (getitem (registers self) a) as [m|]; [|discriminate].
    cbn [existsb fst snd] in Hfail. rewrite orb_false_r in Hfail.
    split; [discriminate|]. exists m. split; [cbn; auto|].
    apply Hmem; [|exact Hfail].
    apply Forall_cons in Hnn as [_ Hnn]. apply Forall_cons in Hnn as [_ Hnn].
    apply Forall_cons in Hnn as [Hm _]. exact Hm.
  - rewrite (Hreg b Hb) in Hfail. rewrite !orb_false_r in Hfail.
    split; [discriminate|]. exists a. split; [cbn; auto|].
    apply Hmem; [lia | exact Hfail].
Qed.

Lemma loaded_command_fails_on_memory_only_witness :
  let cmd := mkCommand READ_MEM [0; 1] read_0_1 in
  exists mem_addr,
    In (length (data_memory (init 0)), mem_addr) (references (init 0) cmd) /\
    Z.of_nat (length (data_memory (init 0))) <= mem_addr.
Proof.
  intros cmd.
  destruct (loaded_command_fails_on_memory_only (init 0) (init 0) cmd IndexError
              eq_refl (init_values_nonneg 0) eq_refl eq_refl) as (_ & _ & _ & H).
  exact H.
Defined.

(** ** Steps and runs *)

(** X18.  Whatever steps complete, the program is never modified, the
    register file and the memory keep their sizes, and the program counter
    only grows; once it is within the program it never passes its end. *)
Theorem steps_frame (self self' : VirtualMachine) :
  steps self self' ->
  program self' = program self /\
  length (registers self') = length (registers self) /\
  length (data_memory self') = length (data_memory self) /\
  pc self <= pc self' /\
  (pc self <= Z.of_nat (length (program self)) ->
   pc self' <= Z.of_nat (length (program self))).
Proof.
  induction 1 as [self | self stepped self1 self2 Hs _ IH].
  - repeat split; auto; lia.
  - destruct IH as (Hp & Hr & Hm & Hpc & Hend).
    assert (H1 : program self1 = program self /\
                 length (registers self1) = length (registers self) /\
                 length (data_memory self1) = length (data_memory self) /\
                 pc self <= pc self1 /\
                 (pc self <= Z.of_nat (length (program self)) ->
                  pc self1 <= Z.of_nat (length (program self)))).
    { revert Hs. unfold execute_step. run_vm.
      destruct (Z.of_nat (length (program self)) <=? pc self) eqn:E.
      - intros [= _ <-]. repeat split; auto; lia.
      - destruct (getitem (program self) (pc self)) as [cmd|]; [|discriminate].
        destruct (execute_command cmd self) as [[[]|e] s] eqn:Ec; [|discriminate].
        intros [= _ <-].
        apply execute_command_frame in Ec as (Hp' & Hpc' & Hr' & Hm').
        cbn [program registers data_memory pc set_pc].
        repeat split; auto; lia. }
    destruct H1 as (Hp1 & Hr1 & Hm1 & Hpc1 & Hend1).
    rewrite Hp1 in Hp, Hend. rewrite Hr1 in Hr. rewrite Hm1 in Hm.
    repeat split; auto; try lia.
Qed.

Lemma steps_frame_witness :
  let self := set_program (init 4) [mkCommand LOAD_CONST [1; 5] []] in
  let self' := set_pc (set_registers self (<[1%nat := 5]> (repeat 0 32))) 1 in
  steps self self' /\
  program self' = program self /\
  length (registers self') = length (registers self) /\
  length (data_memory self') = length (data_memory self) /\
  pc self <= pc self' /\
  (pc self <= Z.of_nat (length (program self)) ->
   pc self' <= Z.of_nat (length (program self))).
Proof.
  intros self self'.
  assert (H : steps self self')
    by (eapply steps_more; [reflexivity | apply steps_done]).
  split; [exact H|]. exact (steps_frame self self' H).
Defined.

Lemma run_loop_Raise fuel : forall max_steps n self e self',
  run_loop fuel max_steps n self = Some (Raise e, self') ->
  execute_step self' = (Raise e, self').
Proof.
  induction fuel as [|fuel IH]; intros max_steps n self e self'; [discriminate|].
  cbn [run_loop].
  destruct (execute_step self) as [[stepped|e'] s] eqn:E.
  - destruct (stepped && (n <? max_steps)); [apply IH | discriminate].
  - intros [= <- <-]. pose proof (execute_step_Raise _ _ _ E) as ->. exact E.
Qed.

(** X19.  [run] always ends, for every bound and every machine.  It ends
    either normally or with the exception of the first step that raised;
    the machine it leaves is the one the completed steps produced, and a
    failed step can be observed again on it. *)
Theorem run_outcome (max_steps : Z) (self : VirtualMachine) :
  exists o self',
    run max_steps self = Some (o, self') /\
    steps self self' /\
    (forall e, o = Raise e -> execute_step self' = (Raise e, self')).
Proof.
  destruct (run_total max_steps self) as [[o self'] H].
  exists o, self'. split; [exact H|]. split.
  - eapply run_loop_steps. exact H.
  - intros e ->. eapply run_loop_Raise. exact H.
Qed.

(** X20.  When no command raises, [run] started with the program counter
    anywhere within the program stops with it at
    [min(N, pc + max(max_steps, 0) + 1)]: it executes up to
    [max(max_steps, 0) + 1] commands, fewer only when the program ends. *)
Theorem run_final_pc (max_steps : Z) (self self' : VirtualMachine) :
  0 <= pc self <= Z.of_nat (length (program self)) ->
  run max_steps self = Some (Return tt, self') ->
  pc self' = Z.min (Z.of_nat (length (program self)))
                   (pc self + Z.max 0 max_steps + 1).
Proof.
  intros Hpc H. apply run_loop_pc in H; [|exact Hpc].
  rewrite H, Z.sub_0_r. reflexivity.
Qed.

Lemma run_final_pc_witness :
  let self := set_pc (set_program (init 4)
                [mkCommand LOAD_CONST [1; 5] []; mkCommand LOAD_CONST [2; 7] [];
                 mkCommand LOAD_CONST [3; 9] []]) 1 in
  exists self',
    run 0 self = Some (Return tt, self') /\ pc self' = 2 /\
    registers self' !! 2%nat = Some 7 /\ registers self' !! 3%nat = Some 0.
Proof.
  intros self. eexists.
  assert (H : run 0 self = Some (Return tt,
                set_pc (set_registers self (<[2%nat := 7]> (repeat 0 32))) 2))
    by reflexivity.
  split; [exact H|].
  split; [|split; reflexivity].
  exact (run_final_pc 0 self _ ltac:(cbn; lia) H).
Defined.

(** X21.  [load_program] does not reset the program counter: after loading
    into a machine whose counter is already at or beyond the length of the
    new program, [run] executes nothing and returns at once, whatever the
    bound. *)
Theorem run_after_load_without_reset
  (data : list byte) (max_steps : Z) (self loaded : VirtualMachine) :
  load_program data self = Some (Return tt, loaded) ->
  Z.of_nat (length (program loaded)) <= pc self ->
  pc loaded = pc self /\
  run max_steps loaded = Some (Return tt, loaded).
Proof.
  intros Hl Hpc.
  destruct (load_program_total data self) as (o & cmds & H & _).
  rewrite H in Hl. injection Hl as _ <-.
  split; [reflexivity|].
  unfold run. cbn [run_loop].
  rewrite execute_step_halted by exact Hpc. reflexivity.
Qed.

Lemma run_after_load_without_reset_witness :
  let self := set_pc (init 4) 2 in
  exists loaded,
    load_program two_loads self = Some (Return tt, loaded) /\
    pc loaded = 2 /\
    run default_max_steps loaded = Some (Return tt, loaded).
Proof.
  intros self. eexists.
  assert (H : load_program two_loads self =
              Some (Return tt, set_program self
                [mkCommand LOAD_CONST [1; 5] [Byte.xac; Byte.x50; Byte.x00; Byte.x00; Byte.x00];
                 mkCommand LOAD_CONST [2; 7] [Byte.x2c; Byte.x71; Byte.x00; Byte.x00; Byte.x00]]))
    by reflexivity.
  split; [exact H|].
  exact (run_after_load_without_reset two_loads default_max_steps self _ H
           ltac:(cbn; lia)).
Defined.

(** X22.  [reset] gives the machine a fresh construction would give for the
    same memory size, with the loaded program kept; resetting twice is
    resetting once, and a reset machine steps from the first command
    again. *)
Theorem reset_is_fresh (self : VirtualMachine) :
  reset self =
    set_program (init (Z.of_nat (length (data_memory self)))) (program self) /\
  reset (reset self) = reset self /\
  values_nonneg (reset self) /\
  (forall cmd rest, program self = cmd :: rest ->
     execute_step (reset self) =
     match execute_command cmd (reset self) with
     | (Return _, self') => (Return true, set_pc self' 1)
     | (Raise e, self') => (Raise e, self')
     end).
Proof.
  assert (H : reset self =
              set_program (init (Z.of_nat (length (data_memory self)))) (program self)).
  { unfold reset, init, set_program. cbn. rewrite Nat2Z.id. reflexivity. }
  split; [exact H|]. split; [|split].
  - unfold reset. cbn [data_memory program]. rewrite repeat_length. reflexivity.
  - rewrite H. apply (init_values_nonneg (Z.of_nat (length (data_memory self)))).
  - intros cmd rest Hp.
    rewrite (execute_step_fetch (reset self) cmd).
    + destruct (execute_command cmd (reset self)) as [[[]|e] s] eqn:E; [|reflexivity].
      apply execute_command_frame in E as (_ & Hpc & _). rewrite Hpc. reflexivity.
    + cbn [reset pc program]. rewrite Hp. cbn [length]. lia.
    + cbn [reset pc program]. rewrite Hp. reflexivity.
Qed.

Lemma reset_is_fresh_witness :
  let self := mkVM (<[1%nat := 5]> (repeat 0 32)) [7; 8] [mkCommand LOAD_CONST [1; 5] []] 1 in
  reset self = set_program (init 2) (program self) /\
  execute_step (reset self) =
    (Return true, set_pc (set_registers (reset self) (<[1%nat := 5]> (repeat 0 32))) 1).
Proof.
  intros self.
  destruct (reset_is_fresh self) as (H1 & _ & _ & H4).
  split; [exact H1|].
  exact (H4 (mkCommand LOAD_CONST [1; 5] []) [] eq_refl).
Defined.

(** ** Dumps *)

(** The accumulator of the loop only gets longer. *)
Lemma dump_loop_acc mem : forall addrs dump,
  dump_loop mem addrs dump =
  (pairs <-! dump_loop mem addrs [] ;; Return (dump ++ pairs)).
Proof.
  induction addrs as [|a addrs IH]; intros dump; cbn [dump_loop obind].
  - rewrite app_nil_r. reflexivity.
  - destruct (getitem mem a) as [v|e]; cbn [obind]; [|reflexivity].
    rewrite (IH (dump ++ [(a, v)])), (IH ([] ++ [(a, v)])).
    destruct (dump_loop mem addrs []) as [pairs|e]; cbn [obind app]; [|reflexivity].
    rewrite <- app_assoc. reflexivity.
Qed.

Lemma dump_loop_app mem : forall addrs1 addrs2 dump,
  dump_loop mem (addrs1 ++ addrs2) dump =
  (pairs <-! dump_loop mem addrs1 dump ;; dump_loop mem addrs2 pairs).
Proof.
  induction addrs1 as [|a addrs1 IH]; intros addrs2 dump; cbn [dump_loop app obind].
  - reflexivity.
  - destruct (getitem mem a) as [v|e]; cbn [obind]; [apply IH | reflexivity].
Qed.

Lemma dump_loop_ok mem : forall addrs,
  Forall (fun a => subscript_ok (length mem) a = true) addrs ->
  exists pairs,
    dump_loop mem addrs [] = Return pairs /\
    length pairs = length addrs /\
    forall j a, addrs !! j = Some a ->
      exists v, pairs !! j = Some (a, v) /\ getitem mem a = Return v.
Proof.
  induction addrs as [|a addrs IH]; intros Hok.
  - exists []. cbn. split; [reflexivity|]. split; [reflexivity|].
    intros j a' H. rewrite lookup_nil in H. discriminate.
  - apply Forall_cons in Hok as [Ha Hok].
    destruct (IH Hok) as (pairs & Hp & Hlen & Hj).
    destruct (getitem_ok mem a Ha) as (k & v & _ & _ & Hv).
    exists ((a, v) :: pairs). cbn [dump_loop]. rewrite Hv. cbn [obind app].
    rewrite dump_loop_acc, Hp. cbn [obind app length].
    split; [reflexivity|]. split; [lia|].
    intros [|j] a' H; cbn in H.
    + injection H as <-. exists v. auto.
    + apply Hj. exact H.
Qed.

Lemma py_range_empty start stop : stop <= start -> py_range start stop = [].
Proof.
  intros H. unfold py_range. replace (Z.to_nat (stop - start)) with 0%nat by lia.
  reflexivity.
Qed.

Lemma py_range_cons start stop :
  start < stop -> py_range start stop = start :: py_range (start + 1) stop.
Proof.
  intros H. unfold py_range.
  replace (Z.to_nat (stop - start)) with (S (Z.to_nat (stop - (start + 1)))) by lia.
  cbn [seq map]. f_equal; [lia|].
  rewrite <- seq_shift, map_map. apply map_ext. intros k. lia.
Qed.

(** X23.  [dump_memory] for any start address: with [M] the memory size and
    [stop = min(end + 1, M)], it returns no pair when [stop <= start]; when
    [-M <= start < stop] it returns [stop - start] pairs, the [j]-th holding
    the address [start + j] and the cell Python's indexing reads there (a
    negative address counts from the end); and it raises [IndexError] when
    [start < -M] and the range is not empty. *)
Theorem dump_memory_any_start (self : VirtualMachine) (start_addr end_addr : Z) :
  let M := Z.of_nat (length (data_memory self)) in
  let stop := Z.min (end_addr + 1) M in
  (- M <= start_addr \/ stop <= start_addr ->
   exists pairs,
     dump_memory self start_addr end_addr = Return pairs /\
     Z.of_nat (length pairs) = Z.max 0 (stop - start_addr) /\
     (forall j : nat, (j < length pairs)%nat ->
        exists v, pairs !! j = Some (start_addr + Z.of_nat j, v) /\
                  getitem (data_memory self) (start_addr + Z.of_nat j) = Return v)) /\
  (start_addr < - M -> start_addr < stop ->
   dump_memory self start_addr end_addr = Raise IndexError).
Proof.
  intros M stop. unfold dump_memory. fold M. fold stop. split.
  - intros Hs.
    assert (Hok : Forall (fun a => subscript_ok (length (data_memory self)) a = true)
                    (py_range start_addr stop)).
    { apply Forall_lookup_2. intros j a Ha.
      pose proof (lookup_lt_Some _ _ _ Ha) as Hj.
      rewrite py_range_lookup in Ha by exact Hj. injection Ha as <-.
      pose proof (py_range_length start_addr stop) as Hl.
      unfold subscript_ok. fold M.
      apply andb_true_intro. split; [apply Z.leb_le | apply Z.ltb_lt]; lia. }
    destruct (dump_loop_ok _ _ Hok) as (pairs & Hp & Hlen & Hj).
    exists pairs. split; [exact Hp|]. split.
    + rewrite Hlen. apply py_range_length.
    + intros j Hlt. apply Hj. apply py_range_lookup. lia.
  - intros Hneg Hne. rewrite py_range_cons by exact Hne. cbn [dump_loop].
    rewrite getitem_bad; [reflexivity|].
    unfold subscript_ok. fold M. apply andb_false_iff. left. apply Z.leb_gt. lia.
Qed.

Lemma dump_memory_any_start_witness :
  let self := mkVM (repeat 0 32) [7; 8; 9] [] 0 in
  dump_memory self (-1) 1 = Return [(-1, 9); (0, 7); (1, 8)] /\
  dump_memory self (-4) 1 = Raise IndexError.
Proof.
  intros self.
  destruct (dump_memory_any_start self (-4) 1) as [_ H2].
  split; [reflexivity|]. apply H2; cbn; lia.
Defined.

Lemma map_seq_offset {B : Type} (len : nat) : forall (f : nat -> B) (n : nat),
  map f (seq n len) = map (fun k => f (n + k)%nat) (seq 0 len).
Proof.
  induction len as [|len IH]; intros f n; cbn [seq map]; [reflexivity|].
  f_equal; [f_equal; lia|].
  rewrite (IH f (S n)), (IH (fun k => f (n + k)%nat) 1%nat).
  apply map_ext. intros k. f_equal. lia.
Qed.

Lemma py_range_app a m s :
  a <= m -> m <= s -> py_range a m ++ py_range m s = py_range a s.
Proof.
  intros H1 H2. unfold py_range.
  replace (Z.to_nat (s - a)) with (Z.to_nat (m - a) + Z.to_nat (s - m))%nat by lia.
  rewrite seq_app, map_app. f_equal. cbn [Nat.add].
  rewrite (map_seq_offset _ _ (Z.to_nat (m - a))).
  apply map_ext. intros k. lia.
Qed.

(** X24.  Dumps of adjacent ranges put together are the dump of the whole
    range: for [a <= b + 1] and [b <= c], [dump_memory(a, c)] returns the
    pairs of [dump_memory(a, b)] followed by those of [dump_memory(b + 1, c)],
    and raises when one of them raises. *)
Theorem dump_memory_split (self : VirtualMachine) (a b c : Z) :
  a <= b + 1 -> b <= c ->
  dump_memory self a c =
  (pairs1 <-! dump_memory self a b ;;
   pairs2 <-! dump_memory self (b + 1) c ;;
   Return (pairs1 ++ pairs2)).
Proof.
  intros Hab Hbc. unfold dump_memory.
  set (mem := data_memory self). set (M := Z.of_nat (length mem)).
  assert (Hsplit : py_range a (Z.min (c + 1) M) =
                   py_range a (Z.min (b + 1) M) ++ py_range (b + 1) (Z.min (c + 1) M)).
  { destruct (Z.le_gt_cases (b + 1) M) as [Hle|Hgt].
    - rewrite (Z.min_l (b + 1) M) by lia. symmetry. apply py_range_app; lia.
    - rewrite (Z.min_r (b + 1) M), (Z.min_r (c + 1) M) by lia.
      rewrite (py_range_empty (b + 1) M) by lia. rewrite app_nil_r. reflexivity. }
  rewrite Hsplit, dump_loop_app.
  destruct (dump_loop mem (py_range a (Z.min (b + 1) M)) []) as [pairs1|e];
    cbn [obind]; [|reflexivity].
  apply dump_loop_acc.
Qed.

Lemma dump_memory_split_witness :
  let self := mkVM (repeat 0 32) [7; 8; 9] [] 0 in
  dump_memory self 0 5 =
  (pairs1 <-! dump_memory self 0 0 ;;
   pairs2 <-! dump_memory self 1 5 ;;
   Return (pairs1 ++ pairs2)).
Proof.
  intros self. apply (dump_memory_split self 0 0 5); lia.
Defined.

(** ** Encoder and loader together *)

(** X25.  The encoder and the loader agree on SHR: a stream that starts with
    the encoding of an in-range SHR command loads as that command (with the
    encoding in [raw_bytes]) followed by whatever the rest of the stream
    loads as, and ends as loading the rest ends. *)
Theorem load_program_encoded_SHR
  (reg mem_addr : Z) (raw rest : list byte) (self : VirtualMachine) :
  0 <= reg < 32 -> 0 <= mem_addr < 2 ^ 30 ->
  exists bs o cmds,
    to_binary (mkCommand SHR [reg; mem_addr] raw) = Return bs /\
    load_program rest self = Some (o, set_program self cmds) /\
    load_program (bs ++ rest) self
      = Some (o, set_program self (mkCommand SHR [reg; mem_addr] bs :: cmds)).
Proof.
  intros Hr Ha.
  set (cmd := mkCommand SHR [reg; mem_addr] raw).
  pose proof (to_binary_SHR reg mem_addr raw Hr Ha) as He. fold cmd in He.
  set (bs := firstn 6 (le_split 8 (packed_value SHR mem_addr reg))) in *.
  assert (Hrange : operands_in_range cmd = true).
  { unfold operands_in_range, is_reg. cbn [cmd opcode args].
    repeat (apply andb_true_intro; split);
      first [apply Z.leb_le | apply Z.ltb_lt]; lia. }
  assert (Hlen : length bs = 6%nat).
  { rewrite (to_binary_length cmd bs He). reflexivity. }
  destruct (from_binary_to_binary cmd bs Hrange He) as [raw' Hd]. cbn [cmd opcode args] in Hd.
  pose proof Hd as Hd'.
  apply from_binary_Return in Hd' as (b & t & Hb & Hcode & Hdec). cbn [opcode] in Hcode, Hdec.
  assert (Hfull : ljust bs 6 = bs) by (apply ljust_full; lia).
  assert (Hraw : raw' = bs).
  { apply (f_equal raw_bytes) in Hdec. cbn [raw_bytes decoded declared_width] in Hdec.
    rewrite Hdec. replace (length bs <? 6)%nat with false
      by (symmetry; apply Nat.ltb_ge; lia).
    apply firstn_all2. lia. }
  subst raw'.
  assert (Hscan : scan bs 0 (length bs)).
  { rewrite Hlen. eapply (scan_next _ 0 b SHR).
    - rewrite Hb. reflexivity.
    - exact Hcode.
    - apply scan_here. }
  destruct (load_loop_prefix bs rest 0 _ Hscan eq_refl) as (cmds1 & H1).
  destruct (load_loop_pure (length rest) rest 0 ltac:(lia)) as (o & cmds & H2).
  exists bs, o, cmds. split; [exact He|]. unfold load_program.
  split; [rewrite H2; reflexivity|].
  destruct (H1 (length (bs ++ rest)) (set_program self []) ltac:(lia)) as [Hx Hy].
  rewrite (load_loop_single bs b t SHR Hb Hcode) in Hx
    by (rewrite ?length_app; cbn [declared_width]; lia).
  cbn [declared_width] in Hx. rewrite Hfull, <- Hdec in Hx.
  injection Hx as Hx. cbn in Hx. subst cmds1.
  rewrite Hy.
  pose proof (load_loop_shift (length (bs ++ rest)) bs rest 0
                (set_program (set_program self [])
                   (program (set_program self []) ++
                      [mkCommand SHR [reg; mem_addr] bs]))) as Hsh.
  rewrite Nat.add_0_r in Hsh. rewrite Hsh.
  rewrite (load_loop_fuel _ (length rest)) by (rewrite ?length_app; lia).
  rewrite H2. reflexivity.
Qed.

Lemma load_program_encoded_SHR_witness :
  exists bs o cmds,
    to_binary (mkCommand SHR [0; 500] []) = Return bs /\
    load_program read_0_1 (init 4) = Some (o, set_program (init 4) cmds) /\
    load_program (bs ++ read_0_1) (init 4)
      = Some (o, set_program (init 4) (mkCommand SHR [0; 500] bs :: cmds)).
Proof.
  exact (load_program_encoded_SHR 0 500 [] read_0_1 (init 4) ltac:(lia) ltac:(lia)).
Defined.
